(** * SPOTection: occupancy inference and spot calibration

    A shallow embedding of the programs that make up the core of the
    repository:

    - [spotection_system.py], function [quick_fix_detection]: the inference
      pass that matches detector boxes against the spot polygons of the
      layout file and labels every spot;
    - [complete_calibration_tool.py], function [complete_lot_calibration]: the
      interactive editor that builds the layout file from mouse clicks;
    - [yolox_inference/spot_mapper.py]: the older occupancy test, kept for
      the comparison of the two overlap predicates.

    Python floats are modelled by exact rationals ([Q]); Python exceptions by
    [option] ([None] is a raised exception).  The geometry library (shapely)
    and the drawing library (numpy / OpenCV) are interfaces of the program,
    not part of it: they appear as type classes, with one executable
    reference instance used to run the programs on concrete inputs. *)

From Stdlib Require Import ZArith QArith Qminmax Qabs List String Ascii Bool Lia.
From Stdlib Require Import DecimalString.
From Stdlib Require DecimalPos DecimalZ.
From stdpp Require Import base option gmap strings.
Import ListNotations.

#[local] Set Warnings "-register-all".
Local Open Scope Z_scope.
Local Open Scope string_scope.

(** ** Values read by [json.load] *)

Inductive json : Type :=
| JNull
| JBool (b : bool)
| JNum (n : Z)
| JFloat (q : Q)
| JStr (s : string)
| JArr (items : list json)
| JObj (fields : list (string * json)).

(** [d[key]] on a value read from JSON.  Only a dict can be indexed by a
    string; a missing key is a [KeyError] and any other receiver a
    [TypeError].  The field list holds each key once, as a Python dict does. *)
Fixpoint assoc (key : string) (fields : list (string * json)) : option json :=
  match fields with
  | [] => None
  | (k, v) :: rest => if String.eqb k key then Some v else assoc key rest
  end.

Definition subscript (j : json) (key : string) : option json :=
  match j with
  | JObj fields => assoc key fields
  | _ => None
  end.

(** The characters of a Python string, each a one-character string. *)
Fixpoint chars (s : string) : list json :=
  match s with
  | EmptyString => []
  | String c rest => JStr (String c EmptyString) :: chars rest
  end.

(** [for x in j]: lists yield their items, dicts their keys, strings their
    characters; numbers, booleans and [None] are not iterable. *)
Definition py_iter (j : json) : option (list json) :=
  match j with
  | JArr items => Some items
  | JObj fields => Some (map (fun kv => JStr (fst kv)) fields)
  | JStr s => Some (chars s)
  | _ => None
  end.

(** [j[:n]]: slicing works on lists and strings only. *)
Definition py_slice (j : json) (n : nat) : option (list json) :=
  match j with
  | JArr items => Some (firstn n items)
  | JStr s => Some (firstn n (chars s))
  | _ => None
  end.

(** ** Files

    The file system as far as the programs touch it: a path holds the JSON
    value [json.load] reads from it; an absent path stands for a file that
    is missing or does not parse. *)

Definition layout_path : string := "data/spot_layout.json".
Definition output_json : string := "data/spot_layout_complete.json".

(** A layout entry on which lines 82-83 go through. *)
Definition has_keys (spot : json) : bool :=
  match subscript spot "id", subscript spot "polygon" with
  | Some _, Some _ => true
  | _, _ => false
  end.

(** A layout entry whose polygon is a list of fewer than three points. *)
Definition short_polygon (spot : json) : bool :=
  match subscript spot "polygon" with
  | Some (JArr points) => Nat.ltb (length points) 3
  | _ => false
  end.

(** ** Float comparisons *)

(** [a > b] on floats. *)
Definition Qgtb (a b : Q) : bool := negb (Qle_bool a b).

(** ** The libraries the inference pass calls *)

(** shapely, as far as [quick_fix_detection] and [spot_mapper.py] use it:
    the [Polygon] constructor (raises on input it cannot make a ring of),
    [box], [intersection] (raises a topology error on geometry it cannot
    overlay) and the [area] property. *)
Class Shapely := {
  geom : Type;
  Polygon : json -> option geom;
  box : Z -> Z -> Z -> Z -> geom;
  intersection : geom -> geom -> option geom;
  area : geom -> Q
}.

(** What [box] promises of a proper rectangle. *)
Class BoxArea `{Shapely} : Prop :=
  box_area : forall x1 y1 x2 y2 : Z,
    x1 < x2 -> y1 < y2 ->
    (area (box x1 y1 x2 y2) == inject_Z ((x2 - x1) * (y2 - y1)))%Q.

(** numpy and OpenCV.  Lines 126-142 of [spotection_system.py] turn the
    polygon into an [int32] array, fill and outline it and write the label
    at [tuple(polygon_coords[0])]: [draw_spot] tells whether these calls run
    to completion on the given coordinates.  Lines 53-71 of
    [complete_calibration_tool.py] draw one registry entry (its polygon, its
    centre and its id): [draw_entry] tells whether they run to completion
    on the given entry. *)
Class Canvas := {
  draw_spot : json -> bool;
  draw_entry : json -> bool
}.

(** ** numpy's [int32] arrays *)

(** The bounds of numpy's [int32]. *)
Definition fits_int32 (n : Z) : bool :=
  Z.leb (-2147483648) n && Z.leb n 2147483647.

(** One number stored under [dtype=np.int32]: an integer must fit (numpy
    raises an [OverflowError] otherwise), a float loses its fractional
    part, a boolean is 0 or 1. *)
Definition to_int32 (j : json) : option Z :=
  match j with
  | JNum n => if fits_int32 n then Some n else None
  | JFloat q =>
      let n := Z.quot (Qnum q) (Z.pos (Qden q)) in
      if fits_int32 n then Some n else None
  | JBool b => Some (if b then 1 else 0)
  | _ => None
  end.

Fixpoint int32_row (cs : list json) : option (list json) :=
  match cs with
  | [] => Some []
  | c :: rest =>
      match to_int32 c, int32_row rest with
      | Some n, Some ns => Some (JNum n :: ns)
      | _, _ => None
      end
  end.

Fixpoint int32_rows (width : nat) (rows : list json) : option (list json) :=
  match rows with
  | [] => Some []
  | JArr cs :: rest =>
      if Nat.eqb (length cs) width then
        match int32_row cs, int32_rows width rest with
        | Some ns, Some rs => Some (JArr ns :: rs)
        | _, _ => None
        end
      else None
  | _ :: _ => None
  end.

(** [np.array(coords, dtype=np.int32)] on a list of points, the array
    written as the list of its rows: the rows must have one length and hold
    numbers. *)
Definition int32_array (coords : json) : option json :=
  match coords with
  | JArr [] => Some (JArr [])
  | JArr (JArr cs :: rest) =>
      option_map JArr (int32_rows (length cs) (JArr cs :: rest))
  | _ => None
  end.

(** ** Detections *)

(** One entry of [results.boxes] after [model.names] and [map(int, ...)]. *)
Record yolo_box := {
  cls_name : string;
  conf : Q;
  xyxy : Z * Z * Z * Z
}.

(** The dict built at lines 39-45; its ["box"] entry is [det_box] below. *)
Record detection := {
  det_id : nat;
  det_class : string;
  det_confidence : Q;
  det_bbox : Z * Z * Z * Z
}.

Definition vehicle_classes : list string :=
  ["car"; "truck"; "bus"; "van"; "motorcycle"; "bicycle"].

Definition in_classes (c : string) (cs : list string) : bool :=
  existsb (String.eqb c) cs.

(** Line 50: [class_name in vehicle_classes and confidence > 0.1]. *)
Definition is_vehicle (d : detection) : bool :=
  in_classes (det_class d) vehicle_classes && Qgtb (det_confidence d) (1 # 10).

Definition detection_of (i : nat) (b : yolo_box) : detection :=
  {| det_id := i; det_class := cls_name b;
     det_confidence := conf b; det_bbox := xyxy b |}.

Fixpoint enumerate_from (i : nat) (boxes : list yolo_box) : list detection :=
  match boxes with
  | [] => []
  | b :: rest => detection_of i b :: enumerate_from (S i) rest
  end.

(** Lines 28-51. *)
Definition all_detections (boxes : list yolo_box) : list detection :=
  enumerate_from 0 boxes.

Definition vehicle_detections (boxes : list yolo_box) : list detection :=
  List.filter is_vehicle (all_detections boxes).

(** Line 25: the detector is called with [conf=0.1], and [results.boxes]
    holds only the boxes whose confidence is above that bound. *)
Definition above_conf (b : yolo_box) : bool := Qgtb (conf b) (1 # 10).

Definition detector_output (boxes : list yolo_box) : bool :=
  forallb above_conf boxes.

(** Membership in [vehicle_classes] alone, the first half of line 50. *)
Definition of_vehicle_class (d : detection) : bool :=
  in_classes (det_class d) vehicle_classes.

(** ** Snapshots *)

(** The status values the web API recognises (line 212 of
    [spotection_web_api.py]). *)
Inductive status := FREE | OCCUPIED | UNKNOWN.

(** The dict appended to [results_data] at lines 144-149. *)
Record snapshot := {
  snap_id : json;
  snap_status : status;
  snap_overlap : Q;
  snap_detection : option string
}.

(** ** The inference pass *)

Section Inference.
Context `{Shapely} `{Canvas}.

Definition det_box (d : detection) : geom :=
  let '(x1, y1, x2, y2) := det_bbox d in box x1 y1 x2 y2.

(** The running pair [(max_overlap, best_detection)]. *)
Definition best : Type := Q * option detection.

(** One iteration of the loops at lines 93-99 and 103-109.  A float
    division by zero raises. *)
Definition visit (spot_polygon : geom) (acc : best) (det : detection)
  : option best :=
  match intersection spot_polygon (det_box det) with
  | None => None
  | Some inter =>
      if Qgtb (area inter) 0 then
        let smaller := Qmin (area spot_polygon) (area (det_box det)) in
        if Qeq_bool smaller 0 then None
        else
          let overlap_ratio := (area inter / smaller)%Q in
          if Qgtb overlap_ratio (fst acc)
          then Some (overlap_ratio, Some det)
          else Some acc
      else Some acc
  end.

Fixpoint scan (spot_polygon : geom) (dets : list detection) (acc : best)
  : option best :=
  match dets with
  | [] => Some acc
  | det :: rest =>
      match visit spot_polygon acc det with
      | None => None
      | Some acc' => scan spot_polygon rest acc'
      end
  end.

(** Lines 89-109: the vehicle pass, then the pass over every detection
    when the vehicle pass left [max_overlap] at zero. *)
Definition match_detections (spot_polygon : geom)
    (all vehicles : list detection) : option best :=
  match scan spot_polygon vehicles (0%Q, None) with
  | None => None
  | Some acc =>
      if Qeq_bool (fst acc) 0 then scan spot_polygon all acc else Some acc
  end.

(** Lines 114-119. *)
Definition decide_status (threshold max_overlap : Q) : status :=
  if Qgtb max_overlap threshold then OCCUPIED else FREE.

(** The body of the [try] block, lines 86-149, for one spot.  [None] is
    any exception, which the handler at lines 151-153 turns into
    [continue].  [threshold] is the local of line 112. *)
Definition analyze_spot (threshold : Q) (all vehicles : list detection)
    (spot_id polygon_coords : json) : option snapshot :=
  match Polygon polygon_coords with
  | None => None
  | Some spot_polygon =>
      match match_detections spot_polygon all vehicles with
      | None => None
      | Some (max_overlap, best_detection) =>
          if draw_spot polygon_coords then
            Some {| snap_id := spot_id;
                    snap_status := decide_status threshold max_overlap;
                    snap_overlap := max_overlap;
                    snap_detection := option_map det_class best_detection |}
          else None
      end
  end.

(** The loop of lines 81-153.  The two subscripts of lines 82-83 stand
    before the [try]: their exception leaves the function. *)
Fixpoint spot_loop (threshold : Q) (all vehicles : list detection)
    (spots : list json) (results_data : list snapshot)
  : option (list snapshot) :=
  match spots with
  | [] => Some results_data
  | spot :: rest =>
      match subscript spot "id", subscript spot "polygon" with
      | Some spot_id, Some polygon_coords =>
          match analyze_spot threshold all vehicles spot_id polygon_coords with
          | Some r => spot_loop threshold all vehicles rest (results_data ++ [r])%list
          | None => spot_loop threshold all vehicles rest results_data
          end
      | _, _ => None
      end
  end.

Definition is_occupied (r : snapshot) : bool :=
  match snap_status r with OCCUPIED => true | _ => false end.

(** Lines 171-182: with no occupied spot the first three layout entries
    are printed, which subscripts them again. *)
Definition sample_report (spots_data : json) (results_data : list snapshot)
  : option unit :=
  if existsb is_occupied results_data then Some tt
  else
    match py_slice spots_data 3 with
    | None => None
    | Some sample =>
        if forallb has_keys sample then Some tt else None
    end.

(** The whole pass on a loaded layout and the detector's boxes; [None] is
    an exception that leaves the function. *)
Definition run_detection (threshold : Q) (spots_data : json)
    (boxes : list yolo_box) : option (list snapshot) :=
  match py_iter spots_data with
  | None => None
  | Some spots =>
      match spot_loop threshold (all_detections boxes)
              (vehicle_detections boxes) spots [] with
      | None => None
      | Some results_data =>
          match sample_report spots_data results_data with
          | None => None
          | Some _ => Some results_data
          end
      end
  end.

(** [quick_fix_detection]: the layout is read at lines 17-18 with no
    check of its content (a missing or unparsable file raises), and the
    threshold is the constant of line 112. *)
Definition quick_fix_detection (files : gmap string json)
    (boxes : list yolo_box) : option (list snapshot) :=
  match files !! layout_path with
  | None => None
  | Some spots_data => run_detection (1 # 100) spots_data boxes
  end.

(** The overlap evaluation of one (spot, detection) pair: the loop body
    run from the initial [max_overlap = 0]. *)
Definition evaluate (spot_polygon : geom) (det : detection) : option Q :=
  option_map fst (visit spot_polygon (0%Q, None) det).

(** What one layout entry contributes to [results_data]. *)
Definition entry_snapshot (threshold : Q) (all vehicles : list detection)
    (spot : json) : option snapshot :=
  match subscript spot "id", subscript spot "polygon" with
  | Some spot_id, Some polygon_coords =>
      analyze_spot threshold all vehicles spot_id polygon_coords
  | _, _ => None
  end.

End Inference.

(** ** A reference kernel

    An executable instance of the two interfaces, exact on rationals: rings
    of vertices, the shoelace area, and Sutherland-Hodgman clipping of a
    simple ring by a convex counter-clockwise ring (every [box] with
    [x1 < x2] and [y1 < y2] is one).  It runs the programs on the concrete
    layouts below, whose coordinates are the integers the calibration
    editor writes. *)

Module Reference.

Definition point : Type := Q * Q.
Definition ring : Type := list point.

Definition coord_of_json (j : json) : option Q :=
  match j with
  | JNum n => Some (inject_Z n)
  | JFloat q => Some q
  | _ => None
  end.

Definition point_of_json (j : json) : option point :=
  match j with
  | JArr [x; y] =>
      match coord_of_json x, coord_of_json y with
      | Some qx, Some qy => Some (qx, qy)
      | _, _ => None
      end
  | _ => None
  end.

Fixpoint points_of_json (items : list json) : option ring :=
  match items with
  | [] => Some []
  | j :: rest =>
      match point_of_json j, points_of_json rest with
      | Some p, Some ps => Some (p :: ps)
      | _, _ => None
      end
  end.

(** [Polygon(coords)] raises a [ValueError] on one or two points and on
    anything that is not a sequence of coordinate pairs; the empty
    sequence makes the empty polygon. *)
Definition ref_Polygon (j : json) : option ring :=
  match j with
  | JArr items =>
      match points_of_json items with
      | Some pts =>
          match pts with
          | [_] | [_; _] => None
          | _ => Some pts
          end
      | None => None
      end
  | _ => None
  end.

(** [box(minx, miny, maxx, maxy)], counter-clockwise from the lower right
    corner. *)
Definition ref_box (x1 y1 x2 y2 : Z) : ring :=
  [(inject_Z x2, inject_Z y1); (inject_Z x2, inject_Z y2);
   (inject_Z x1, inject_Z y2); (inject_Z x1, inject_Z y1)].

Definition cross (p q : point) : Q := (fst p * snd q - fst q * snd p)%Q.
Definition minus (p q : point) : point := ((fst p - fst q)%Q, (snd p - snd q)%Q).

Fixpoint shoelace_from (first : point) (pts : ring) : Q :=
  match pts with
  | [] => 0%Q
  | p :: rest =>
      match rest with
      | [] => cross p first
      | q :: _ => (cross p q + shoelace_from first rest)%Q
      end
  end.

Definition ref_area (r : ring) : Q :=
  match r with
  | [] => 0%Q
  | p :: _ => Qred (Qabs (shoelace_from p r) / 2)
  end.

(** [p] lies on the left of, or on, the directed line from [a] to [b]. *)
Definition inside (a b p : point) : bool :=
  Qle_bool 0 (cross (minus b a) (minus p a)).

(** Where the line through [s] and [e] meets the line through [a] and [b]. *)
Definition cross_point (a b s e : point) : point :=
  let t := (cross (minus a s) (minus b a) / cross (minus e s) (minus b a))%Q in
  (Qred (fst s + t * (fst e - fst s)), Qred (snd s + t * (snd e - snd s))).

Fixpoint clip_walk (a b prev : point) (pts : ring) : ring :=
  match pts with
  | [] => []
  | cur :: rest =>
      ((if inside a b cur then
          if inside a b prev then [cur] else [cross_point a b prev cur; cur]
        else
          if inside a b prev then [cross_point a b prev cur] else [])
       ++ clip_walk a b cur rest)%list
  end.

Definition clip_edge (a b : point) (subject : ring) : ring :=
  match subject with
  | [] => []
  | p :: _ => clip_walk a b (List.last subject p) subject
  end.

Fixpoint edges_from (first : point) (pts : ring) : list (point * point) :=
  match pts with
  | [] => []
  | p :: rest =>
      match rest with
      | [] => [(p, first)]
      | q :: _ => (p, q) :: edges_from first rest
      end
  end.

Definition edges (r : ring) : list (point * point) :=
  match r with
  | [] => []
  | p :: _ => edges_from p r
  end.

(** Twice the signed area of the triangle [a b c]. *)
Definition orient (a b c : point) : Q := cross (minus b a) (minus c a).

(** The segments [a b] and [c d] cross at a point interior to both. *)
Definition segments_cross (a b c d : point) : bool :=
  Qgtb 0 (orient a b c * orient a b d) && Qgtb 0 (orient c d a * orient c d b).

(** Two edges of the ring cross: the ring is a bow, not a simple outline. *)
Definition crosses_itself (r : ring) : bool :=
  existsb (fun e =>
    existsb (fun e' => segments_cross (fst e) (snd e) (fst e') (snd e'))
            (edges r))
    (edges r).

(** Every point of [r] has a smaller [f]-coordinate than every point of
    [s]. *)
Definition all_before (f : point -> Q) (r s : ring) : bool :=
  forallb (fun p => forallb (fun q => Qgtb (f q) (f p)) s) r.

(** The bounding boxes of the two rings do not meet. *)
Definition envelopes_apart (r s : ring) : bool :=
  all_before fst r s || all_before fst s r ||
  all_before snd r s || all_before snd s r.

(** [a.intersection(b)].  Geometries whose bounding boxes do not meet have
    the empty intersection; otherwise the two outlines are overlaid, which
    raises a topology error on a ring that crosses itself. *)
Definition ref_intersection (subject clipper : ring) : option ring :=
  if envelopes_apart subject clipper then Some []
  else if crosses_itself subject || crosses_itself clipper then None
  else Some (fold_left (fun s ab => clip_edge (fst ab) (snd ab) s)
                       (edges clipper) subject).

#[export] Instance shapely : Shapely := {|
  geom := ring;
  Polygon := ref_Polygon;
  box := ref_box;
  intersection := ref_intersection;
  area := ref_area
|}.

Definition int_pair (j : json) : bool :=
  match j with
  | JArr [JNum _; JNum _] => true
  | _ => false
  end.

(** The drawing of lines 126-142 goes through when the coordinates make
    an [int32] array of points and the first point, which [cv2.putText]
    takes as it stands, is a pair of integers; on the empty list
    [polygon_coords[0]] is an [IndexError]. *)
Definition ref_draw_spot (j : json) : bool :=
  match j with
  | JArr (p :: rest) =>
      int_pair p &&
      match int32_array j with Some _ => true | None => false end
  | _ => false
  end.

Definition number (j : json) : bool :=
  match j with
  | JNum _ | JFloat _ => true
  | _ => false
  end.

Definition number_pair (j : json) : bool :=
  match j with
  | JArr [x; y] => number x && number y
  | _ => false
  end.

(** An entry of the registry is drawn when its id is a string, which
    [cv2.putText] writes, and its polygon a non-empty list of pairs of
    numbers, whose mean is the centre.  (The coordinates of a click are C
    integers and fit the [int32] array.) *)
Definition ref_draw_entry (spot : json) : bool :=
  match subscript spot "id", subscript spot "polygon" with
  | Some (JStr _), Some (JArr (p :: rest)) => forallb number_pair (p :: rest)
  | _, _ => false
  end.

#[export] Instance canvas : Canvas := {|
  draw_spot := ref_draw_spot;
  draw_entry := ref_draw_entry
|}.

End Reference.

(** ** Concrete layouts and detections *)

Definition pt (x y : Z) : json := JArr [JNum x; JNum y].

Definition spot_entry (id : string) (points : list json) : json :=
  JObj [("id", JStr id); ("polygon", JArr points)].

Definition square_points : list json := [pt 0 0; pt 100 0; pt 100 100; pt 0 100].

(** The layout of the scenarios: one spot, the square of side 100. *)
Definition square_layout : json := JArr [spot_entry "s1" square_points].

(** The same layout behind an entry whose polygon has two points only. *)
Definition two_point_layout : json := JArr [spot_entry "s1" [pt 0 0; pt 1 0]].

Definition mixed_layout : json :=
  JArr [spot_entry "s0" [pt 0 0; pt 1 0]; spot_entry "s1" square_points].

Definition square_ring : Reference.ring :=
  [(0, 0); (100, 0); (100, 100); (0, 100)]%Q.

Definition car_inside : yolo_box :=
  {| cls_name := "car"; conf := 9 # 10; xyxy := (40, 40, 60, 60) |}.

Definition car_far : yolo_box :=
  {| cls_name := "car"; conf := 9 # 10; xyxy := (200, 200, 250, 250) |}.

Definition car_on_corner : yolo_box :=
  {| cls_name := "car"; conf := 9 # 10; xyxy := (99, 99, 199, 199) |}.

Definition person_inside : yolo_box :=
  {| cls_name := "person"; conf := 9 # 10; xyxy := (40, 40, 60, 60) |}.

(** A spot whose corners were clicked in the wrong order: the outline
    crosses itself at (130/3, 130/3) and still encloses area 2500. *)
Definition bow_points : list json := [pt 10 10; pt 110 110; pt 110 10; pt 10 60].

Definition bow_layout : json := JArr [spot_entry "s1" bow_points].

Definition bow_ring : Reference.ring :=
  [(10, 10); (110, 110); (110, 10); (10, 60)]%Q.

Definition car_over_crossing : yolo_box :=
  {| cls_name := "car"; conf := 9 # 10; xyxy := (0, 0, 120, 120) |}.

(** ** The older occupancy test of [spot_mapper.py] *)

(** Line 53, with the constant [0.15] as [t]. *)
Definition both_perspectives (t overlap_area spot_area box_area : Q) : bool :=
  Qgtb (overlap_area / spot_area) t || Qgtb (overlap_area / box_area) t.

(** Lines 96 and 114 of [spotection_system.py] for one detection. *)
Definition min_normalized (t overlap_area spot_area box_area : Q) : bool :=
  Qgtb (overlap_area / Qmin spot_area box_area) t.

Section SpotMapper.
Context `{Shapely}.

(** Lines 46-58: the first detection that passes the test ends the loop.
    Either division raises on a zero area. *)
Fixpoint mapper_occupied (spot_poly : geom) (detections : list (Z * Z * Z * Z))
  : option bool :=
  match detections with
  | [] => Some false
  | (x1, y1, x2, y2) :: rest =>
      let car_box := box x1 y1 x2 y2 in
      match intersection spot_poly car_box with
      | None => None
      | Some inter =>
          if Qeq_bool (area spot_poly) 0 then None
          else if Qgtb (area inter / area spot_poly) (15 # 100) then Some true
          else if Qeq_bool (area car_box) 0 then None
          else if Qgtb (area inter / area car_box) (15 # 100) then Some true
          else mapper_occupied spot_poly rest
      end
  end.
End SpotMapper.

(** ** The calibration editor *)

(** The lines the editor prints. *)
Inductive message :=
| Loaded (n : nat)
| StartingFresh
| PointClicked (n : nat) (x y : Z)
| Added (spot_id : string)
| Cancelled
| Saved (n : nat) (path : string)
| UpdatedLayout
| NoSpotsToSave
| ResetPolygon
| Removed (spot_id : json)
| NoSpotsToUndo.

(** The variables of [complete_lot_calibration] that its closures and its
    main loop share, the files and the printed lines.  [running] is false
    once a [break] has left the main loop. *)
Record editor := {
  spots : list json;
  current_polygon : list (Z * Z);
  spot_counter : Z;
  files : gmap string json;
  printed : list message;
  running : bool
}.

Definition fresh (fs : gmap string json) : editor :=
  {| spots := []; current_polygon := []; spot_counter := 1;
     files := fs; printed := [StartingFresh]; running := true |}.

(** Lines 35-47, with the reference image loaded.  [spots.extend] takes any
    iterable; every exception is swallowed by the bare [except]. *)
Definition start (fs : gmap string json) : editor :=
  match fs !! layout_path with
  | None => fresh fs
  | Some existing_spots =>
      match py_iter existing_spots with
      | None => fresh fs
      | Some items =>
          {| spots := items; current_polygon := [];
             spot_counter := Z.of_nat (length items) + 1;
             files := fs; printed := [Loaded (length items)];
             running := true |}
      end
  end.

(** [f"spot_{spot_counter}"]. *)
Definition spot_name (n : Z) : string :=
  "spot_" ++ NilZero.string_of_int (Z.to_int n).

(** The dict of lines 129-132. *)
Definition new_spot (spot_id : string) (points : list (Z * Z)) : json :=
  JObj [("id", JStr spot_id);
        ("polygon", JArr (map (fun p => JArr [JNum (fst p); JNum (snd p)]) points))].

Inductive mouse_event := EVENT_LBUTTONDOWN | EVENT_OTHER.

(** Lines 119-135. *)
Definition mouse_callback (event : mouse_event) (x y : Z) (st : editor) : editor :=
  match event with
  | EVENT_OTHER => st
  | EVENT_LBUTTONDOWN =>
      let polygon := (current_polygon st ++ [(x, y)])%list in
      let out := (printed st ++ [PointClicked (length polygon) x y])%list in
      if Nat.eqb (length polygon) 4 then
        let spot_id := spot_name (spot_counter st) in
        {| spots := (spots st ++ [new_spot spot_id polygon])%list;
           current_polygon := [];
           spot_counter := spot_counter st + 1;
           files := files st;
           printed := (out ++ [Added spot_id])%list;
           running := running st |}
      else
        {| spots := spots st; current_polygon := polygon;
           spot_counter := spot_counter st; files := files st;
           printed := out; running := running st |}
  end.

Definition ord (c : ascii) : Z := Z.of_nat (nat_of_ascii c).

Definition say (m : message) (st : editor) : editor :=
  {| spots := spots st; current_polygon := current_polygon st;
     spot_counter := spot_counter st; files := files st;
     printed := (printed st ++ [m])%list; running := running st |}.

(** One turn of the main loop after [cv2.waitKey], lines 149-175.  [None]
    is an exception that leaves the function: the subscript of line 173. *)
Definition key_pressed (key : Z) (st : editor) : option editor :=
  if Z.eqb key (ord "q") then
    Some {| spots := spots st; current_polygon := current_polygon st;
            spot_counter := spot_counter st; files := files st;
            printed := (printed st ++ [Cancelled])%list; running := false |}
  else if Z.eqb key (ord "s") then
    if Nat.ltb 0 (length (spots st)) then
      Some {| spots := spots st; current_polygon := current_polygon st;
              spot_counter := spot_counter st;
              files := <[layout_path := JArr (spots st)]>
                         (<[output_json := JArr (spots st)]> (files st));
              printed := (printed st ++ [Saved (length (spots st)) output_json;
                                         UpdatedLayout])%list;
              running := false |}
    else Some (say NoSpotsToSave st)
  else if Z.eqb key (ord "r") then
    Some {| spots := spots st; current_polygon := [];
            spot_counter := spot_counter st; files := files st;
            printed := (printed st ++ [ResetPolygon])%list; running := running st |}
  else if Z.eqb key (ord "u") then
    if Nat.ltb 0 (length (spots st)) then
      match subscript (List.last (spots st) JNull) "id" with
      | None => None
      | Some removed_id =>
          Some {| spots := removelast (spots st);
                  current_polygon := current_polygon st;
                  spot_counter := spot_counter st - 1; files := files st;
                  printed := (printed st ++ [Removed removed_id])%list;
                  running := running st |}
      end
    else Some (say NoSpotsToUndo st)
  else Some st.

(** The commands of the editor. *)
Definition add_point (x y : Z) : editor -> editor := mouse_callback EVENT_LBUTTONDOWN x y.
Definition reset_current : editor -> option editor := key_pressed (ord "r").
Definition undo_last_spot : editor -> option editor := key_pressed (ord "u").
Definition save_and_exit : editor -> option editor := key_pressed (ord "s").
Definition quit_without_saving : editor -> option editor := key_pressed (ord "q").

(** A mouse event with its position. *)
Definition click : Type := mouse_event * Z * Z.

Definition clicked (st : editor) (c : click) : editor :=
  let '(e, x, y) := c in mouse_callback e x y st.

Section MainLoop.
Context `{Canvas}.

(** Lines 49-117: the registry entries are drawn one by one; the pending
    points are integer pairs and always drawn.  Nothing is written. *)
Definition draw_interface (st : editor) : bool :=
  forallb draw_entry (spots st).

(** One turn of the main loop, lines 144-175: the interface is drawn,
    [cv2.waitKey] delivers the pending mouse events to the callback and
    returns a key, and the key is handled. *)
Definition loop_turn (clicks : list click) (key : Z) (st : editor)
  : option editor :=
  if draw_interface st then key_pressed key (fold_left clicked clicks st)
  else None.

(** The main loop over the turns of a session; a [break] ends it. *)
Fixpoint session (turns : list (list click * Z)) (st : editor) : option editor :=
  match turns with
  | [] => Some st
  | (clicks, key) :: rest =>
      if running st then
        match loop_turn clicks key st with
        | None => None
        | Some st' => session rest st'
        end
      else Some st
  end.

End MainLoop.

(** The next spot is numbered after the registry. *)
Definition counter_follows (st : editor) : Prop :=
  spot_counter st = Z.of_nat (length (spots st)) + 1.

(** ** The summary of a pass *)

(** Lines 156-157 of [spotection_system.py]: the occupied snapshots are
    counted and the free ones are the rest. *)
Definition count_occupied (results_data : list snapshot) : nat :=
  length (List.filter is_occupied results_data).

(** [(free, occupied, total)] as printed at line 160. *)
Definition summary (results_data : list snapshot) : nat * nat * nat :=
  let occupied := count_occupied results_data in
  let free := (length results_data - occupied)%nat in
  (free, occupied, length results_data).

Definition is_free (r : snapshot) : bool :=
  match snap_status r with FREE => true | _ => false end.

(** ** More of the calibration editor *)

(** Lines 80-90 of [draw_interface]: with exactly three points pending the
    fourth corner is predicted and the closed outline previewed. *)
Definition preview_point (st : editor) : option (Z * Z) :=
  match current_polygon st with
  | [p1; p2; p3] => Some (fst p1 + fst p3 - fst p2, snd p1 + snd p3 - snd p2)
  | _ => None
  end.

(** A registry entry the main loop can live with: the interface draws it
    and an undo finds its id. *)
Definition entry_ok `{Canvas} (spot : json) : bool :=
  match subscript spot "id" with
  | Some _ => draw_entry spot
  | None => false
  end.

(** Left clicks at the given positions, in order. *)
Definition add_points (points : list (Z * Z)) (st : editor) : editor :=
  fold_left (fun s p => add_point (fst p) (snd p) s) points st.

(** The entry the editor makes for the spot at index [i] of the registry. *)
Definition editor_made (i : nat) (e : json) : Prop :=
  exists points, e = new_spot (spot_name (Z.of_nat i + 1)) points /\
                 length points = 4%nat.

(** With respect to a registry [base], every entry is still the entry of
    [base] at its index or was made by the editor for that index. *)
Definition loaded_or_made (base : list json) (st : editor) : Prop :=
  forall i e, nth_error (spots st) i = Some e ->
              nth_error base i = Some e \/ editor_made i e.

(** ** More of [spot_mapper.py] *)

(** The labels kept at line 29. *)
Definition mapper_labels : list string := ["car"; "truck"; "van"].

(** Lines 23-35: the boxes of the kept detections. *)
Definition mapper_detections (boxes : list yolo_box) : list (Z * Z * Z * Z) :=
  map xyxy (List.filter (fun b => in_classes (cls_name b) mapper_labels) boxes).

(** The test of line 53 on one box, when shapely computes the
    intersection. *)
Definition mapper_passes `{Shapely} (spot_poly : geom) (b : Z * Z * Z * Z)
  : bool :=
  let '(x1, y1, x2, y2) := b in
  match intersection spot_poly (box x1 y1 x2 y2) with
  | Some inter =>
      both_perspectives (15 # 100) (area inter) (area spot_poly)
        (area (box x1 y1 x2 y2))
  | None => false
  end.

(** A polygon of integer points that fit [int32], as the calibration
    editor writes them. *)
Definition integer_point (j : json) : bool :=
  match j with
  | JArr [JNum x; JNum y] => fits_int32 x && fits_int32 y
  | _ => false
  end.

Definition integer_polygon (coords : json) : bool :=
  match coords with
  | JArr points => forallb integer_point points
  | _ => false
  end.

Section SpotMapperPolygon.
Context `{Shapely}.

(** Lines 43-44: the polygon is built from the [int32] array, not from the
    coordinates of the layout themselves. *)
Definition mapper_polygon (polygon_coords : json) : option geom :=
  match int32_array polygon_coords with
  | Some poly_points => Polygon poly_points
  | None => None
  end.

(** Lines 43-58 for the polygon of one spot. *)
Definition mapper_spot_occupied (polygon_coords : json)
    (detections : list (Z * Z * Z * Z)) : option bool :=
  match mapper_polygon polygon_coords with
  | Some spot_poly => mapper_occupied spot_poly detections
  | None => None
  end.

End SpotMapperPolygon.

(** ** The web API, [webapp/spotection_web_api.py] *)

(** What an endpoint answers: a body, or the status code of the
    [HTTPException] it raises (the detail text is left out). *)
Inductive response (A : Type) : Type :=
| Ok (body : A)
| HttpError (status_code : Z).

Arguments Ok {A} body.
Arguments HttpError {A} status_code.

(** What the body of a [try] block comes to. *)
Inductive outcome (A : Type) : Type :=
| Returned (value : A)
| RaisedHttp (status_code : Z)
| RaisedOther.

Arguments Returned {A} value.
Arguments RaisedHttp {A} status_code.
Arguments RaisedOther {A}.

(** [except Exception as e: raise HTTPException(status_code=500, ...)]:
    [HTTPException] is itself an [Exception], so the handler catches it
    too. *)
Definition reraise_as_500 {A} (body : outcome A) : response A :=
  match body with
  | Returned value => Ok value
  | RaisedHttp _ => HttpError 500
  | RaisedOther => HttpError 500
  end.

(** [len(j)]. *)
Definition py_len (j : json) : option nat :=
  match j with
  | JArr items => Some (length items)
  | JObj fields => Some (length fields)
  | JStr s => Some (String.length s)
  | _ => None
  end.

(** Lines 121-139: the layout as it is in the file, and its length.  The
    path is [config.get("spot_layout_path", "data/spot_layout.json")]. *)
Definition get_lot_spots (fs : gmap string json)
    (spot_layout_path lot_id : string) : response (string * json * nat) :=
  reraise_as_500
    match fs !! spot_layout_path with
    | None => RaisedHttp 404
    | Some spots =>
        match py_len spots with
        | Some n => Returned (lot_id, spots, n)
        | None => RaisedOther
        end
    end.

(** The request model of lines 78-80, already validated by pydantic. *)
Record SpotPolygon := {
  sp_id : string;
  sp_polygon : list (list Z)
}.

(** The dict of lines 192-195. *)
Definition spot_dict (spot : SpotPolygon) : json :=
  JObj [("id", JStr (sp_id spot));
        ("polygon", JArr (map (fun point => JArr (map JNum point))
                              (sp_polygon spot)))].

(** Lines 183-207, on a writable file: the layout file is replaced by the
    posted spots; the answer counts them. *)
Definition calibrate_lot (fs : gmap string json) (spot_layout_path : string)
    (spots : list SpotPolygon) : gmap string json * response nat :=
  (<[spot_layout_path := JArr (map spot_dict spots)]> fs, Ok (length spots)).

(** A result of [process_frame] as lines 160-167 read it. *)
Record frame_result := {
  fr_id : string;
  fr_status : string;
  fr_confidence : Q;
  fr_timestamp : string;
  fr_vehicle : option json
}.

(** The response model of lines 66-72. *)
Record LotStatus := {
  ls_lot_id : string;
  ls_timestamp : string;
  total_spots : nat;
  free_spots : nat;
  occupied_spots : nat;
  ls_spots : list frame_result
}.

Definition status_is_occupied (r : frame_result) : bool :=
  String.eqb (fr_status r) "OCCUPIED".

(** Lines 141-181.  [process_frame] belongs to the detection system the
    API imports; it is a parameter here and [None] is its exception or a
    result the response model refuses. *)
Definition get_lot_status
    (process_frame : string -> json -> option (list frame_result))
    (fs : gmap string json) (spot_layout_path image_path lot_id now : string)
  : response LotStatus :=
  reraise_as_500
    match fs !! spot_layout_path with
    | None => RaisedHttp 404
    | Some spots_data =>
        match process_frame image_path spots_data with
        | None => RaisedOther
        | Some results =>
            let occupied_count := length (List.filter status_is_occupied results) in
            Returned {| ls_lot_id := lot_id; ls_timestamp := now;
                        total_spots := length results;
                        free_spots := (length results - occupied_count)%nat;
                        occupied_spots := occupied_count;
                        ls_spots := results |}
        end
    end.

(** A websocket, known by its identity. *)
Definition connection : Type := nat.

(** [list.remove(c)] on a list that holds [c]: the first occurrence goes. *)
Fixpoint remove_one (c : connection) (l : list connection) : list connection :=
  match l with
  | [] => []
  | x :: rest => if Nat.eqb x c then rest else x :: remove_one c rest
  end.

(** Lines 48-54, [ConnectionManager.broadcast], with no other coroutine
    touching the list meanwhile.  The [for] loop reads the list by index
    while the handler removes from it; [sends c] tells whether
    [c.send_json] succeeds.  The loop makes at most as many turns as the
    list is long, which is the fuel [broadcast] gives it. *)
Fixpoint broadcast_loop (sends : connection -> bool) (fuel i : nat)
    (active delivered : list connection) : list connection * list connection :=
  match fuel with
  | O => (active, delivered)
  | S fuel' =>
      match nth_error active i with
      | None => (active, delivered)
      | Some c =>
          if sends c
          then broadcast_loop sends fuel' (S i) active (delivered ++ [c])%list
          else broadcast_loop sends fuel' (S i) (remove_one c active) delivered
      end
  end.

(** The connections left and the connections that got the message. *)
Definition broadcast (sends : connection -> bool) (active : list connection)
  : list connection * list connection :=
  broadcast_loop sends (length active) 0 active [].

Definition recognized_statuses : list string := ["FREE"; "OCCUPIED"; "UNKNOWN"].

(** The message of lines 217-223. *)
Record override_message := {
  om_type : string;
  om_lot_id : string;
  om_spot_id : string;
  om_status : string;
  om_timestamp : string
}.

(** Lines 209-231: the answer, the connections left, and who got which
    message.  The two timestamps are the two readings of the clock. *)
Definition manual_override (sends : connection -> bool)
    (now_message now_reply lot_id spot_id status : string)
    (active : list connection)
  : response (string * string * string) * list connection
    * list (connection * override_message) :=
  if in_classes status recognized_statuses then
    let override := {| om_type := "manual_override"; om_lot_id := lot_id;
                       om_spot_id := spot_id; om_status := status;
                       om_timestamp := now_message |} in
    let result := broadcast sends active in
    (Ok ("Override applied to " ++ spot_id, status, now_reply),
     fst result, map (fun c => (c, override)) (snd result))
  else (HttpError 400, active, []).

(** [s.endswith(suffix)]. *)
Definition ends_with (suffix s : string) : bool :=
  Nat.leb (String.length suffix) (String.length s) &&
  String.eqb (substring (String.length s - String.length suffix)
                (String.length suffix) s) suffix.

(** The filter of line 241. *)
Definition is_annotated (f : string) : bool :=
  String.prefix "annotated_" f && ends_with ".jpg" f.

(** [max] over strings: the greatest in the order of their characters. *)
Fixpoint max_string (first : string) (rest : list string) : string :=
  match rest with
  | [] => first
  | s :: rest' => max_string (if String.ltb first s then s else first) rest'
  end.

(** [os.path.join(directory, name)] for a name out of a directory
    listing. *)
Definition path_join (directory name : string) : string :=
  match directory with
  | EmptyString => name
  | _ => if ends_with "/" directory then directory ++ name
         else directory ++ "/" ++ name
  end.

(** Lines 233-254.  [output_listing] is [os.listdir(output_dir)] when the
    directory exists; [image_exists] tells whether the raw image is there.
    The answer is the path of the file that is served. *)
Definition get_lot_image (output_listing : option (list string))
    (output_dir image_path : string) (image_exists annotated : bool)
  : response string :=
  reraise_as_500
    match
      (if annotated then
         match output_listing with
         | Some names =>
             match List.filter is_annotated names with
             | [] => None
             | first :: rest => Some (path_join output_dir (max_string first rest))
             end
         | None => None
         end
       else None)
    with
    | Some path => Returned path
    | None => if image_exists then Returned image_path else RaisedHttp 404
    end.

(** ** The setup script, [setup_spotection.py] *)

Definition directories : list string :=
  ["data"; "output"; "static"; "models"; "logs"].

Definition requirements : list string :=
  ["ultralytics"; "opencv-python"; "shapely"; "numpy"; "fastapi";
   "uvicorn[standard]"; "python-multipart"; "websockets"].

(** Lines 44-52: pip is called on one package after the other; [pip p]
    tells whether the call returns (it raises [CalledProcessError]
    otherwise, which ends the function with [False]).  The packages pip was
    called on, and the result. *)
Fixpoint install_packages (pip : string -> bool) (packages : list string)
  : list string * bool :=
  match packages with
  | [] => ([], true)
  | package :: rest =>
      if pip package then
        let '(called, result) := install_packages pip rest in
        (package :: called, result)
      else ([package], false)
  end.

Definition install_requirements (pip : string -> bool) : list string * bool :=
  install_packages pip requirements.

(** Lines 54-69: nothing is fetched when the model file is there. *)
Definition download_yolo_model (model_present download_succeeds : bool) : bool :=
  if model_present then true else download_succeeds.

(** The dict of lines 73-80. *)
Definition sample_config : json :=
  JObj [("model_path", JStr "yolov8n.pt");
        ("confidence_threshold", JFloat (3 # 10));
        ("overlap_threshold", JFloat (15 # 100));
        ("image_path", JStr "data/test_image.jpg");
        ("spot_layout_path", JStr "data/spot_layout.json");
        ("output_dir", JStr "output/")].

(** What a run of [setup_project] has done. *)
Record setup_run := {
  made_directories : list string;
  pip_calls : list string;
  download_attempted : bool;
  config_written : option json;
  html_written : bool;
  setup_result : bool
}.

(** Lines 294-327. *)
Definition setup_project (pip : string -> bool)
    (model_present download_succeeds : bool) : setup_run :=
  let '(called, installed) := install_requirements pip in
  if installed then
    if download_yolo_model model_present download_succeeds then
      {| made_directories := directories; pip_calls := called;
         download_attempted := negb model_present;
         config_written := Some sample_config; html_written := true;
         setup_result := true |}
    else
      {| made_directories := directories; pip_calls := called;
         download_attempted := negb model_present;
         config_written := None; html_written := false;
         setup_result := false |}
  else
    {| made_directories := directories; pip_calls := called;
       download_attempted := false;
       config_written := None; html_written := false;
       setup_result := false |}.

(** * Properties *)

(** ** Float comparisons *)

Lemma Qgtb_true (a b : Q) : Qgtb a b = true <-> (b < a)%Q.
Proof.
  unfold Qgtb. rewrite negb_true_iff. split.
  - intros E. apply Qnot_le_lt. intros L.
    apply Qle_bool_iff in L. congruence.
  - intros L. destruct (Qle_bool a b) eqn:E; [|reflexivity].
    apply Qle_bool_iff in E. exfalso. exact (Qlt_not_le _ _ L E).
Qed.

Lemma Qgtb_false (a b : Q) : Qgtb a b = false <-> (a <= b)%Q.
Proof.
  unfold Qgtb. rewrite negb_false_iff. apply Qle_bool_iff.
Qed.

Lemma Qeq_bool_false (a b : Q) : Qeq_bool a b = false <-> ~ (a == b)%Q.
Proof.
  split.
  - apply Qeq_bool_neq.
  - intros N. destruct (Qeq_bool a b) eqn:E; [|reflexivity].
    apply Qeq_bool_iff in E. contradiction.
Qed.

(** Case analysis on a float comparison, leaving the order fact. *)
Ltac cmp a b :=
  let E := fresh "E" in
  destruct (Qgtb a b) eqn:E;
  [apply Qgtb_true in E | apply Qgtb_false in E].

(** ** One pass over the detections *)

Section ScanFacts.
Context `{Shapely}.

(** The loop body, read through [evaluate]: with a non-negative running
    maximum, a detection replaces the best one exactly when its own
    ratio is larger. *)
Lemma visit_evaluate (p : geom) (acc : best) (det : detection) :
  (0 <= fst acc)%Q ->
  visit p acc det =
  match evaluate p det with
  | Some q => Some (if Qgtb q (fst acc) then (q, Some det) else acc)
  | None => None
  end.
Proof.
  intros Hacc. unfold evaluate, visit.
  destruct (intersection p (det_box det)) as [inter|]; [|reflexivity].
  destruct (Qgtb (area inter) 0) eqn:Hpos; simpl.
  - destruct (Qeq_bool (Qmin (area p) (area (det_box det))) 0); [reflexivity|].
    set (r := (area inter / Qmin (area p) (area (det_box det)))%Q).
    cmp r 0%Q; simpl.
    + destruct (Qgtb r (fst acc)); reflexivity.
    + cmp r (fst acc); simpl.
      * exfalso. apply (Qlt_irrefl r).
        eapply Qle_lt_trans; [|exact E0].
        eapply Qle_trans; [exact E|exact Hacc].
      * cmp 0%Q (fst acc); [|reflexivity].
        exfalso. exact (Qlt_not_le _ _ E1 Hacc).
  - cmp 0%Q (fst acc); [|reflexivity].
    exfalso. exact (Qlt_not_le _ _ E Hacc).
Qed.

Lemma evaluate_nonneg (p : geom) (det : detection) (q : Q) :
  evaluate p det = Some q -> (0 <= q)%Q.
Proof.
  unfold evaluate, visit.
  destruct (intersection p (det_box det)) as [inter|]; [|discriminate].
  destruct (Qgtb (area inter) 0); simpl.
  - destruct (Qeq_bool _ 0); [discriminate|].
    set (r := (area inter / _)%Q). cmp r 0%Q; simpl; intros [= <-].
    + apply Qlt_le_weak, E.
    + apply Qle_refl.
  - intros [= <-]. apply Qle_refl.
Qed.

(** What a pass returns: the running maximum never decreases, bounds the
    ratio of every detection visited, and is either untouched or the
    ratio of the detection that is kept with it. *)
Lemma scan_spec (p : geom) (dets : list detection) :
  forall acc acc',
    (0 <= fst acc)%Q ->
    scan p dets acc = Some acc' ->
    (fst acc <= fst acc')%Q /\
    (forall det, In det dets ->
       exists q, evaluate p det = Some q /\ (q <= fst acc')%Q) /\
    (acc' = acc \/
     exists det, In det dets /\ evaluate p det = Some (fst acc') /\
                 snd acc' = Some det /\ (fst acc < fst acc')%Q).
Proof.
  induction dets as [|d dets IH]; intros acc acc' Hacc Hscan; simpl in Hscan.
  - injection Hscan as <-. repeat split.
    + apply Qle_refl.
    + intros det [].
    + now left.
  - rewrite (visit_evaluate _ _ _ Hacc) in Hscan.
    destruct (evaluate p d) as [q|] eqn:Hq; [|discriminate].
    cmp q (fst acc).
    + assert (Hq0 : (0 <= fst (q, Some d))%Q) by (simpl; eapply evaluate_nonneg; eauto).
      destruct (IH _ _ Hq0 Hscan) as (Hle & Hall & Hwin). simpl in Hle.
      repeat split.
      * apply Qlt_le_weak. eapply Qlt_le_trans; eauto.
      * intros det [<-|Hin]; eauto.
      * right. destruct Hwin as [->|(det & Hin & He & Hs & Hlt)].
        -- exists d. simpl. split; [now left|]. split; [exact Hq|].
           split; [reflexivity|exact E].
        -- exists det. simpl in Hlt. split; [now right|].
           split; [exact He|]. split; [exact Hs|].
           eapply Qlt_trans; eauto.
    + destruct (IH _ _ Hacc Hscan) as (Hle & Hall & Hwin).
      repeat split.
      * exact Hle.
      * intros det [<-|Hin]; eauto.
        exists q. split; [exact Hq|]. eapply Qle_trans; eauto.
      * destruct Hwin as [->|(det & Hin & He & Hs & Hlt)]; [now left|].
        right. exists det. split; [now right|]. auto.
Qed.

(** A pass raises exactly when the evaluation of one of its detections
    does. *)
Lemma scan_succeeds (p : geom) (dets : list detection) :
  forall acc,
    (0 <= fst acc)%Q ->
    (forall det, In det dets -> exists q, evaluate p det = Some q) ->
    exists acc', scan p dets acc = Some acc'.
Proof.
  induction dets as [|d dets IH]; intros acc Hacc Hall; simpl.
  - eauto.
  - rewrite (visit_evaluate _ _ _ Hacc).
    destruct (Hall d (or_introl eq_refl)) as [q Hq]. rewrite Hq.
    apply IH.
    + cmp q (fst acc); simpl; [eapply evaluate_nonneg; eauto|exact Hacc].
    + intros det Hin. apply Hall. now right.
Qed.

(** A running maximum still at zero was never replaced. *)
Lemma scan_zero (p : geom) (dets : list detection) (acc' : best) :
  scan p dets (0%Q, None) = Some acc' ->
  (fst acc' == 0)%Q -> acc' = (0%Q, None).
Proof.
  intros Hscan Hz.
  destruct (scan_spec p dets (0%Q, None) acc' (Qle_refl 0) Hscan)
    as (_ & _ & [->|(det & _ & _ & _ & Hlt)]); [reflexivity|].
  simpl in Hlt. rewrite Hz in Hlt. exfalso. exact (Qlt_irrefl _ Hlt).
Qed.

End ScanFacts.

(** ** The reference kernel keeps the promise of [box] *)

#[export] Instance reference_box_area : @BoxArea Reference.shapely.
Proof.
  intros x1 y1 x2 y2 Hx Hy.
  change (area (box x1 y1 x2 y2))
    with (Reference.ref_area (Reference.ref_box x1 y1 x2 y2)).
  unfold Reference.ref_area, Reference.ref_box.
  rewrite Qred_correct.
  assert (Hs : (Reference.shoelace_from (inject_Z x2, inject_Z y1)
                  [(inject_Z x2, inject_Z y1); (inject_Z x2, inject_Z y2);
                   (inject_Z x1, inject_Z y2); (inject_Z x1, inject_Z y1)]
                == 2 * inject_Z ((x2 - x1) * (y2 - y1)))%Q).
  { simpl. unfold Reference.cross; simpl.
    rewrite inject_Z_mult. unfold Z.sub.
    rewrite !inject_Z_plus, !inject_Z_opp. ring. }
  rewrite Hs.
  assert (Hp : (0 <= 2 * inject_Z ((x2 - x1) * (y2 - y1)))%Q).
  { apply Qmult_le_0_compat; [discriminate|].
    change 0%Q with (inject_Z 0). rewrite <- Zle_Qle. nia. }
  rewrite (Qabs_pos _ Hp). field.
Qed.

(** ** The overlap evaluation *)

(** The polygon of [bow_layout] is accepted by [Polygon] and has area
    2500, but its overlay with a box over the crossing raises: the spot is
    skipped by the handler of lines 151-153. *)
Lemma bow_spot_is_skipped :
  @Polygon Reference.shapely (JArr bow_points) = Some bow_ring /\
  (@area Reference.shapely bow_ring == 2500)%Q /\
  @intersection Reference.shapely bow_ring
    (@det_box Reference.shapely (detection_of 0 car_over_crossing)) = None /\
  @run_detection Reference.shapely Reference.canvas (1 # 100) bow_layout
    [car_over_crossing] = Some [].
Proof. repeat split; vm_compute; reflexivity. Qed.

(** C1, as stated, fails: a polygon of positive area whose outline crosses
    itself has no overlap ratio with a box over the crossing, because
    shapely raises on the intersection. *)
Lemma crossing_polygon_is_not_evaluated :
  ~ (forall (coords : json) (p : Reference.ring) (det : detection)
            (x1 y1 x2 y2 : Z),
       @Polygon Reference.shapely coords = Some p ->
       (0 < @area Reference.shapely p)%Q ->
       det_bbox det = (x1, y1, x2, y2) ->
       x1 < x2 -> y1 < y2 ->
       exists ratio : Q,
         @evaluate Reference.shapely p det = Some ratio /\
         (0 <= ratio)%Q /\ (ratio <= 1)%Q).
Proof.
  intros Hc.
  destruct (Hc (JArr bow_points) bow_ring (detection_of 0 car_over_crossing)
              0 0 120 120 eq_refl eq_refl eq_refl eq_refl eq_refl)
    as (ratio & He & _).
  vm_compute in He. discriminate.
Qed.

(** C1, amended.  For a spot polygon of positive area and a detection box
    with [x1 < x2] and [y1 < y2]: when shapely raises on the intersection
    the evaluation raises; when it computes the intersection the evaluation
    returns [intersection_area / min(polygon_area, (x2-x1)*(y2-y1))] (and 0
    for an intersection area that is not positive).  The ratio is never
    negative, it is zero exactly when the intersection area is, and it is
    at most 1 exactly when the intersection area is at most the area of
    the polygon and at most the area of the box: the code does not clamp
    it. *)
Theorem overlap_evaluation `{Shapely} `{!BoxArea}
    (spot_polygon : geom) (det : detection) (x1 y1 x2 y2 : Z) :
  det_bbox det = (x1, y1, x2, y2) ->
  x1 < x2 -> y1 < y2 ->
  (0 < area spot_polygon)%Q ->
  match intersection spot_polygon (box x1 y1 x2 y2) with
  | None => evaluate spot_polygon det = None
  | Some inter =>
      exists ratio : Q,
        evaluate spot_polygon det = Some ratio /\
        ((0 <= area inter)%Q ->
         (ratio == area inter /
                   Qmin (area spot_polygon)
                        (inject_Z ((x2 - x1) * (y2 - y1))))%Q) /\
        (0 <= ratio)%Q /\
        ((ratio == 0)%Q <-> (area inter <= 0)%Q) /\
        ((ratio <= 1)%Q <->
         (area inter <= area spot_polygon)%Q /\
         (area inter <= inject_Z ((x2 - x1) * (y2 - y1)))%Q)
  end.
Proof.
  intros Hbb Hx Hy Hpoly.
  assert (Hdb : det_box det = box x1 y1 x2 y2).
  { unfold det_box. now rewrite Hbb. }
  pose proof (box_area _ _ _ _ Hx Hy) as Hba.
  set (B := inject_Z ((x2 - x1) * (y2 - y1))) in *.
  assert (HB : (0 < B)%Q).
  { unfold B. change 0%Q with (inject_Z 0). rewrite <- Zlt_Qlt. nia. }
  unfold evaluate, visit. rewrite Hdb.
  destruct (intersection spot_polygon (box x1 y1 x2 y2)) as [inter|];
    [|reflexivity].
  set (m := Qmin (area spot_polygon) (area (box x1 y1 x2 y2))).
  assert (Hmm : (m == Qmin (area spot_polygon) B)%Q).
  { unfold m. now rewrite Hba. }
  assert (Hm : (0 < m)%Q).
  { rewrite Hmm. apply Q.min_glb_lt; assumption. }
  assert (Hm0 : ~ (m == 0)%Q).
  { intros E. rewrite E in Hm. exact (Qlt_irrefl _ Hm). }
  assert (Hglb : forall x, (x <= m)%Q <-> (x <= area spot_polygon)%Q /\ (x <= B)%Q).
  { intros x. rewrite Hmm. apply Q.min_glb_iff. }
  cmp (area inter) 0%Q.
  - pose proof (proj2 (Qeq_bool_false m 0) Hm0) as Hmb. rewrite Hmb.
    assert (Hr : (0 < area inter / m)%Q).
    { apply Qlt_shift_div_l; [exact Hm|]. now rewrite Qmult_0_l. }
    apply Qgtb_true in Hr. simpl fst. rewrite Hr. simpl.
    apply Qgtb_true in Hr.
    exists (area inter / m)%Q. split; [reflexivity|]. split.
    { intros _. now rewrite Hmm. }
    split; [apply Qlt_le_weak, Hr|]. split.
    + split; intros Hz; exfalso.
      * rewrite Hz in Hr. exact (Qlt_irrefl _ Hr).
      * exact (Qlt_not_le _ _ E Hz).
    + rewrite <- Hglb. split; intros Hle.
      * apply (Qmult_le_r _ _ m Hm) in Hle.
        unfold Qdiv in Hle.
        rewrite <- Qmult_assoc, (Qmult_comm (/ m)), (Qmult_inv_r _ Hm0),
          Qmult_1_r, Qmult_1_l in Hle.
        exact Hle.
      * apply Qle_shift_div_r; [exact Hm|]. now rewrite Qmult_1_l.
  - simpl. exists 0%Q. split; [reflexivity|]. split.
    { intros Hnn.
      assert (Hz : (area inter == 0)%Q) by (apply Qle_antisym; assumption).
      rewrite Hz. unfold Qdiv. now rewrite Qmult_0_l. }
    split; [apply Qle_refl|]. split.
    + split; intros _; [exact E|reflexivity].
    + split; [intros _|intros _; discriminate].
      split; eapply Qle_trans; try exact E; apply Qlt_le_weak; assumption.
Qed.

Lemma overlap_evaluation_witness :
  exists ratio : Q,
    @evaluate Reference.shapely square_ring (detection_of 0 car_inside)
      = Some ratio /\
    (ratio == 1)%Q.
Proof.
  assert (Hpoly : (0 < @area Reference.shapely square_ring)%Q)
    by (vm_compute; reflexivity).
  pose proof (@overlap_evaluation Reference.shapely reference_box_area
                square_ring (detection_of 0 car_inside) 40 40 60 60
                eq_refl eq_refl eq_refl Hpoly) as Hthm.
  assert (Hinter : @intersection Reference.shapely square_ring
                     (@box Reference.shapely 40 40 60 60) =
                   Some [(40, 60); (40, 40); (60, 40); (60, 60)]%Q)
    by (vm_compute; reflexivity).
  rewrite Hinter in Hthm.
  destruct Hthm as (ratio & He & Hr & _).
  exists ratio. split; [exact He|].
  eapply Qeq_trans; [apply Hr; vm_compute; discriminate|].
  vm_compute. reflexivity.
Defined.

(** ** The two passes and the decision *)

Section ClassifierFacts.
Context `{Shapely} `{Canvas}.

Lemma match_detections_spec (p : geom) (all vehicles : list detection)
    (acc : best) :
  match_detections p all vehicles = Some acc ->
  exists prim, scan p vehicles (0%Q, None) = Some prim /\
    ((~ (fst prim == 0)%Q /\ acc = prim) \/
     (prim = (0%Q, None) /\ scan p all (0%Q, None) = Some acc)).
Proof.
  unfold match_detections.
  destruct (scan p vehicles (0%Q, None)) as [prim|] eqn:Hprim; [|discriminate].
  intros Hm. exists prim. split; [reflexivity|].
  destruct (Qeq_bool (fst prim) 0) eqn:Hz.
  - right. apply Qeq_bool_iff in Hz.
    pose proof (scan_zero _ _ _ Hprim Hz) as ->. now split.
  - left. apply Qeq_bool_false in Hz. injection Hm as <-. now split.
Qed.

Lemma match_detections_nonneg (p : geom) (all vehicles : list detection)
    (acc : best) :
  match_detections p all vehicles = Some acc -> (0 <= fst acc)%Q.
Proof.
  intros Hm.
  destruct (match_detections_spec _ _ _ _ Hm)
    as (prim & Hprim & [[_ ->]|[_ Hall]]).
  - now destruct (scan_spec p vehicles (0%Q, None) _ (Qle_refl 0) Hprim)
      as (Hle & _).
  - now destruct (scan_spec p all (0%Q, None) _ (Qle_refl 0) Hall)
      as (Hle & _).
Qed.

Lemma analyze_spot_inv (threshold : Q) (all vehicles : list detection)
    (spot_id coords : json) (r : snapshot) :
  analyze_spot threshold all vehicles spot_id coords = Some r ->
  exists p max_overlap best_detection,
    Polygon coords = Some p /\
    match_detections p all vehicles = Some (max_overlap, best_detection) /\
    draw_spot coords = true /\
    r = {| snap_id := spot_id;
           snap_status := decide_status threshold max_overlap;
           snap_overlap := max_overlap;
           snap_detection := option_map det_class best_detection |}.
Proof.
  unfold analyze_spot.
  destruct (Polygon coords) as [p|] eqn:Hp; [|discriminate].
  destruct (match_detections p all vehicles) as [[m b]|] eqn:Hm; [|discriminate].
  destruct (draw_spot coords) eqn:Hd; [|discriminate].
  intros [= <-]. exists p, m, b. repeat split; assumption.
Qed.

Lemma decide_status_occupied (threshold m : Q) :
  decide_status threshold m = OCCUPIED <-> (threshold < m)%Q.
Proof.
  unfold decide_status. cmp m threshold.
  - tauto.
  - split; [discriminate|]. intros L. exfalso. exact (Qlt_not_le _ _ L E).
Qed.

Lemma decide_status_free (threshold m : Q) :
  decide_status threshold m = FREE <-> (m <= threshold)%Q.
Proof.
  unfold decide_status. cmp m threshold.
  - split; [discriminate|]. intros L. exfalso. exact (Qlt_not_le _ _ E L).
  - tauto.
Qed.

(** The loop over the layout entries collects, in order, the snapshot of
    every entry whose analysis goes through. *)
Lemma spot_loop_omap (threshold : Q) (all vehicles : list detection)
    (spots : list json) :
  forall results_data,
    forallb has_keys spots = true ->
    spot_loop threshold all vehicles spots results_data =
    Some (results_data ++ omap (entry_snapshot threshold all vehicles) spots)%list.
Proof.
  induction spots as [|spot rest IH]; intros acc Hk; simpl.
  - now rewrite app_nil_r.
  - simpl in Hk. apply andb_prop in Hk as [Hs Hr].
    unfold has_keys in Hs. unfold entry_snapshot at 1.
    destruct (subscript spot "id") as [i|]; [|discriminate].
    destruct (subscript spot "polygon") as [c|]; [|discriminate].
    destruct (analyze_spot threshold all vehicles i c) as [r|].
    + rewrite (IH _ Hr). now rewrite <- app_assoc.
    + apply IH, Hr.
Qed.

Lemma forallb_firstn {A} (f : A -> bool) (n : nat) (l : list A) :
  forallb f l = true -> forallb f (firstn n l) = true.
Proof.
  revert n. induction l as [|a l IH]; intros [|n] Hl; simpl; auto.
  simpl in Hl. apply andb_prop in Hl as [-> Hl]. simpl. auto.
Qed.

Lemma run_detection_omap (threshold : Q) (spots : list json)
    (boxes : list yolo_box) :
  forallb has_keys spots = true ->
  run_detection threshold (JArr spots) boxes =
  Some (omap (entry_snapshot threshold (all_detections boxes)
                (vehicle_detections boxes)) spots).
Proof.
  intros Hk. unfold run_detection, py_iter.
  rewrite (spot_loop_omap _ _ _ _ _ Hk). rewrite app_nil_l.
  unfold sample_report, py_slice.
  destruct (existsb is_occupied _); [reflexivity|].
  now rewrite (forallb_firstn _ _ _ Hk).
Qed.

End ClassifierFacts.

(** ** The decision *)

(** The pass on the square layout, for any threshold. *)
Lemma square_layout_run (threshold : Q) (b : yolo_box) :
  xyxy b = (40, 40, 60, 60) ->
  @run_detection Reference.shapely Reference.canvas threshold square_layout [b] =
  Some [{| snap_id := JStr "s1";
           snap_status := decide_status threshold (400 # 400);
           snap_overlap := 400 # 400;
           snap_detection := Some (cls_name b) |}].
Proof.
  destruct b as [c cf bb]. simpl. intros ->. unfold square_layout.
  rewrite run_detection_omap by reflexivity.
  unfold vehicle_detections, all_detections. simpl enumerate_from.
  simpl List.filter.
  match goal with |- context [is_vehicle ?d] => destruct (is_vehicle d) end;
    vm_compute; reflexivity.
Qed.

(** The disjoint box (200,200,250,250) leaves the square FREE with ratio 0
    and no matched detection. *)
Lemma disjoint_box_is_free :
  @run_detection Reference.shapely Reference.canvas (1 # 100) square_layout
    [car_far] =
  Some [{| snap_id := JStr "s1"; snap_status := FREE;
           snap_overlap := 0; snap_detection := None |}].
Proof. vm_compute. reflexivity. Qed.

(** The comparison of line 114 is strict.  The source fixes the threshold
    at 0.01; in the pass taken at a threshold of exactly 1.0 the inner box,
    whose ratio is 1.0, would leave the spot FREE. *)
Lemma strict_comparison_at_one :
  @run_detection Reference.shapely Reference.canvas 1 square_layout
    [car_inside] =
  Some [{| snap_id := JStr "s1"; snap_status := FREE;
           snap_overlap := 400 # 400; snap_detection := Some "car" |}].
Proof. now rewrite square_layout_run. Qed.



(** ** Monotonicity in the threshold *)

(** C9.  With the detections fixed, a spot that is OCCUPIED at a threshold
    is OCCUPIED at every lower threshold, with the same overlap and the same
    matched detection: raising the threshold never turns FREE into
    OCCUPIED. *)
Theorem threshold_monotone `{Shapely} `{Canvas} (t1 t2 : Q)
    (all vehicles : list detection) (spot_id coords : json) (r2 : snapshot) :
  (t1 <= t2)%Q ->
  analyze_spot t2 all vehicles spot_id coords = Some r2 ->
  snap_status r2 = OCCUPIED ->
  exists r1,
    analyze_spot t1 all vehicles spot_id coords = Some r1 /\
    snap_status r1 = OCCUPIED /\
    snap_overlap r1 = snap_overlap r2 /\
    snap_detection r1 = snap_detection r2.
Proof.
  intros Ht Hr2 Hs.
  destruct (analyze_spot_inv _ _ _ _ _ _ Hr2) as (p & m & b & Hp & Hm & Hd & ->).
  simpl in Hs. apply decide_status_occupied in Hs.
  unfold analyze_spot. rewrite Hp, Hm, Hd.
  eexists. split; [reflexivity|]. simpl.
  split; [|split; reflexivity].
  apply decide_status_occupied. eapply Qle_lt_trans; eauto.
Qed.

Lemma threshold_monotone_witness :
  exists r1,
    @analyze_spot Reference.shapely Reference.canvas (1 # 100)
      (all_detections [car_inside]) (vehicle_detections [car_inside])
      (JStr "s1") (JArr square_points) = Some r1 /\
    snap_status r1 = OCCUPIED.
Proof.
  destruct (@threshold_monotone Reference.shapely Reference.canvas
              (1 # 100) (1 # 2)
              (all_detections [car_inside]) (vehicle_detections [car_inside])
              (JStr "s1") (JArr square_points)
              {| snap_id := JStr "s1"; snap_status := OCCUPIED;
                 snap_overlap := 400 # 400; snap_detection := Some "car" |})
    as (r1 & Hr & Hs & _).
  - vm_compute. discriminate.
  - vm_compute. reflexivity.
  - reflexivity.
  - exists r1. now split.
Defined.

(** ** The vehicle pass and the fallback pass *)

Section TwoPhase.
Context `{Shapely} `{Canvas}.

Lemma vehicle_detections_In (boxes : list yolo_box) (det : detection) :
  In det (vehicle_detections boxes) <->
  In det (all_detections boxes) /\
  in_classes (det_class det) vehicle_classes = true /\
  (1 # 10 < det_confidence det)%Q.
Proof.
  unfold vehicle_detections. rewrite filter_In. unfold is_vehicle.
  rewrite andb_true_iff, Qgtb_true. tauto.
Qed.

Lemma no_vehicle_class (boxes : list yolo_box) :
  (forall d, In d (all_detections boxes) ->
             in_classes (det_class d) vehicle_classes = false) ->
  vehicle_detections boxes = [].
Proof.
  intros Hn. unfold vehicle_detections.
  induction (all_detections boxes) as [|d l IH]; [reflexivity|].
  simpl. unfold is_vehicle at 1. rewrite (Hn d (or_introl eq_refl)). simpl.
  apply IH. intros d' Hin. apply Hn. now right.
Qed.

(** The vehicle pass found nothing exactly when its maximum is zero. *)
Lemma primary_zero_iff (p : geom) (vehicles : list detection) (prim : best) :
  scan p vehicles (0%Q, None) = Some prim ->
  (fst prim == 0)%Q <->
  (forall det q, In det vehicles -> evaluate p det = Some q -> (q == 0)%Q).
Proof.
  intros Hprim.
  destruct (scan_spec p vehicles (0%Q, None) prim (Qle_refl 0) Hprim)
    as (_ & Hall & Hwin).
  split.
  - intros Hz det q Hin Hq.
    destruct (Hall det Hin) as (q' & Hq' & Hle).
    rewrite Hq in Hq'. injection Hq' as <-.
    apply Qle_antisym.
    + now rewrite <- Hz.
    + eapply evaluate_nonneg; eauto.
  - intros Hzero.
    destruct Hwin as [->|(det & Hin & He & _ & _)]; [reflexivity|].
    exact (Hzero det _ Hin He).
Qed.

Lemma match_detections_branch (p : geom) (all vehicles : list detection)
    (prim : best) :
  scan p vehicles (0%Q, None) = Some prim ->
  ((fst prim == 0)%Q ->
   match_detections p all vehicles = scan p all (0%Q, None)) /\
  (~ (fst prim == 0)%Q -> match_detections p all vehicles = Some prim).
Proof.
  intros Hprim. unfold match_detections. rewrite Hprim. split; intros Hz.
  - rewrite (scan_zero _ _ _ Hprim Hz). reflexivity.
  - apply Qeq_bool_false in Hz. now rewrite Hz.
Qed.

End TwoPhase.

(** The confidence test of line 50 repeats the bound the detector was
    called with at line 25: on the boxes the detector returns, the first
    pass is over every detection of a vehicle class. *)
Lemma gate_never_excludes (boxes : list yolo_box) :
  detector_output boxes = true ->
  vehicle_detections boxes =
  List.filter of_vehicle_class (all_detections boxes).
Proof.
  unfold vehicle_detections, all_detections, detector_output.
  generalize 0%nat. induction boxes as [|b rest IH]; intros k Hout; simpl.
  - reflexivity.
  - simpl in Hout. apply andb_prop in Hout as [Hb Hrest].
    unfold is_vehicle at 1, of_vehicle_class at 1. simpl.
    unfold above_conf in Hb. rewrite Hb, andb_true_r.
    now rewrite (IH _ Hrest).
Qed.

(** C3.  On the boxes the detector returns, the first pass maximises the
    ratio over the detections whose class is a vehicle class; the pass over
    all detections runs exactly when the first pass found no positive
    overlap; with no detection of a vehicle class, a detection whose ratio
    exceeds the threshold makes the spot OCCUPIED through the second
    pass. *)
Theorem two_phase_matching `{Shapely} `{Canvas} (boxes : list yolo_box) :
  detector_output boxes = true ->
  vehicle_detections boxes =
    List.filter of_vehicle_class (all_detections boxes) /\
  (forall p prim,
      scan p (vehicle_detections boxes) (0%Q, None) = Some prim ->
      (forall det, In det (all_detections boxes) ->
         of_vehicle_class det = true ->
         exists q, evaluate p det = Some q /\ (q <= fst prim)%Q) /\
      (prim = (0%Q, None) \/
       exists det, In det (all_detections boxes) /\
                   of_vehicle_class det = true /\
                   evaluate p det = Some (fst prim) /\
                   snd prim = Some det) /\
      ((fst prim == 0)%Q <->
       (forall det q, In det (all_detections boxes) ->
          of_vehicle_class det = true ->
          evaluate p det = Some q -> (q == 0)%Q)) /\
      ((fst prim == 0)%Q ->
       match_detections p (all_detections boxes) (vehicle_detections boxes) =
         scan p (all_detections boxes) (0%Q, None)) /\
      (~ (fst prim == 0)%Q ->
       match_detections p (all_detections boxes) (vehicle_detections boxes) =
         Some prim)) /\
  (forall threshold spot_id coords p det q,
      (forall d, In d (all_detections boxes) -> of_vehicle_class d = false) ->
      Polygon coords = Some p ->
      draw_spot coords = true ->
      (forall d, In d (all_detections boxes) -> exists q', evaluate p d = Some q') ->
      In det (all_detections boxes) ->
      evaluate p det = Some q ->
      (threshold < q)%Q ->
      match_detections p (all_detections boxes) (vehicle_detections boxes) =
        scan p (all_detections boxes) (0%Q, None) /\
      exists r,
        analyze_spot threshold (all_detections boxes) (vehicle_detections boxes)
          spot_id coords = Some r /\
        snap_status r = OCCUPIED /\ (q <= snap_overlap r)%Q).
Proof.
  intros Hout. pose proof (gate_never_excludes _ Hout) as Hgate.
  assert (Hin : forall det, In det (vehicle_detections boxes) <->
                  In det (all_detections boxes) /\ of_vehicle_class det = true).
  { intros det. rewrite Hgate. apply filter_In. }
  split; [exact Hgate|]. split.
  - intros p prim Hprim.
    destruct (scan_spec p _ (0%Q, None) prim (Qle_refl 0) Hprim)
      as (_ & Hall & Hwin).
    split.
    { intros det Hdet Hclass. apply Hall, Hin. now split. }
    split.
    { destruct Hwin as [->|(det & Hdet & He & Hs & _)]; [now left|].
      right. exists det. apply Hin in Hdet as [Hdet Hclass]. auto. }
    split.
    { rewrite (primary_zero_iff _ _ _ Hprim). split.
      - intros Hz det q Hdet Hclass. apply Hz, Hin. now split.
      - intros Hz det q Hdet. apply Hin in Hdet as [Hdet Hclass]. now apply Hz. }
    apply match_detections_branch, Hprim.
  - intros threshold spot_id coords p det q Hnone Hp Hd Hev Hdet Hq Ht.
    rewrite (no_vehicle_class _ Hnone).
    assert (Hm : match_detections p (all_detections boxes) [] =
                 scan p (all_detections boxes) (0%Q, None)) by reflexivity.
    split; [exact Hm|].
    destruct (scan_succeeds p (all_detections boxes) (0%Q, None) (Qle_refl 0) Hev)
      as [[m b] Hscan].
    destruct (scan_spec p (all_detections boxes) (0%Q, None) (m, b)
                (Qle_refl 0) Hscan) as (_ & Hall & _).
    destruct (Hall det Hdet) as (q' & Hq' & Hle).
    rewrite Hq in Hq'. injection Hq' as <-. simpl in Hle.
    unfold analyze_spot. rewrite Hp, Hm, Hscan, Hd.
    eexists. split; [reflexivity|]. simpl. split; [|exact Hle].
    apply decide_status_occupied. eapply Qlt_le_trans; eauto.
Qed.

Lemma two_phase_matching_witness :
  exists r,
    @analyze_spot Reference.shapely Reference.canvas (1 # 100)
      (all_detections [person_inside]) (vehicle_detections [person_inside])
      (JStr "s1") (JArr square_points) = Some r /\
    snap_status r = OCCUPIED.
Proof.
  pose (det := detection_of 0 person_inside).
  assert (Hout : detector_output [person_inside] = true) by reflexivity.
  assert (Hnone : forall d, In d (all_detections [person_inside]) ->
                    of_vehicle_class d = false).
  { intros d [<-|[]]. reflexivity. }
  assert (Hev : forall d, In d (all_detections [person_inside]) ->
                  exists q', @evaluate Reference.shapely square_ring d = Some q').
  { intros d [<-|[]]. eexists. vm_compute. reflexivity. }
  assert (Ht : (1 # 100 < 400 # 400)%Q) by reflexivity.
  destruct (proj2 (proj2 (@two_phase_matching Reference.shapely Reference.canvas
                            [person_inside] Hout))
              (1 # 100)%Q (JStr "s1") (JArr square_points)
              square_ring det (400 # 400)%Q
              Hnone eq_refl eq_refl Hev (or_introl eq_refl) eq_refl Ht)
    as (_ & r & Hr & Hs & _).
  exists r. now split.
Defined.

(** ** When a spot is OCCUPIED *)

(** C4, as stated, fails: a vehicle that barely touches the spot ends the
    matching after the first pass, and a detection of another class that
    covers the spot is never looked at. *)
Lemma occupied_iff_some_detection_fails :
  ~ (forall (threshold : Q) (boxes : list yolo_box) (spot_id coords : json)
            (p : Reference.ring) (r : snapshot),
       @Polygon Reference.shapely coords = Some p ->
       @analyze_spot Reference.shapely Reference.canvas threshold
         (all_detections boxes) (vehicle_detections boxes) spot_id coords = Some r ->
       (snap_status r = OCCUPIED <->
        exists det q, In det (all_detections boxes) /\
                      @evaluate Reference.shapely p det = Some q /\
                      (threshold < q)%Q)).
Proof.
  intros Hc.
  specialize (Hc (1 # 100)%Q [car_on_corner; person_inside]
                 (JStr "s1") (JArr square_points) square_ring
                 {| snap_id := JStr "s1"; snap_status := FREE;
                    snap_overlap := 1 # 10000; snap_detection := Some "car" |}
                 eq_refl eq_refl).
  assert (Hocc : FREE = OCCUPIED); [|discriminate].
  apply Hc. exists (detection_of 1 person_inside), (400 # 400)%Q.
  split; [right; now left|]. split; reflexivity.
Qed.

(** C4, amended.  The snapshot of a spot is OCCUPIED exactly when the
    threshold is negative, or a detection of the first pass has a ratio
    above the threshold, or no detection of the first pass overlaps the spot
    and some detection has a ratio above the threshold. *)
Theorem occupied_iff `{Shapely} `{Canvas} (threshold : Q)
    (all vehicles : list detection) (spot_id coords : json)
    (p : geom) (r : snapshot) :
  Polygon coords = Some p ->
  analyze_spot threshold all vehicles spot_id coords = Some r ->
  (snap_status r = OCCUPIED <->
   (threshold < 0)%Q \/
   (exists det q, In det vehicles /\ evaluate p det = Some q /\ (threshold < q)%Q) \/
   ((forall det q, In det vehicles -> evaluate p det = Some q -> (q == 0)%Q) /\
    exists det q, In det all /\ evaluate p det = Some q /\ (threshold < q)%Q)).
Proof.
  intros Hp Hr.
  destruct (analyze_spot_inv _ _ _ _ _ _ Hr) as (p' & m & b & Hp' & Hm & _ & ->).
  rewrite Hp in Hp'. injection Hp' as <-. simpl.
  rewrite decide_status_occupied.
  pose proof (match_detections_nonneg _ _ _ _ Hm) as Hm0. simpl in Hm0.
  destruct (match_detections_spec _ _ _ _ Hm) as (prim & Hprim & Hcase).
  pose proof (primary_zero_iff _ _ _ Hprim) as Hzero.
  destruct (scan_spec p vehicles (0%Q, None) prim (Qle_refl 0) Hprim)
    as (_ & Hveh & Hwin).
  split.
  - intros Ht.
    destruct (Qlt_le_dec threshold 0) as [Hneg|Hpos]; [now left|right].
    destruct Hcase as [[Hnz <-]|[-> Hall]].
    + left. destruct Hwin as [E|(det & Hin & He & _ & _)].
      * injection E as E _. exfalso. apply Hnz. simpl. now rewrite E.
      * exists det, m. auto.
    + right. split; [now apply Hzero|].
      destruct (scan_spec p all (0%Q, None) (m, b) (Qle_refl 0) Hall)
        as (_ & _ & [E|(det & Hin & He & _ & _)]).
      * injection E as E _. exfalso. rewrite E in Ht.
        exact (Qlt_not_le _ _ Ht Hpos).
      * exists det, m. auto.
  - intros [Hneg|[(det & q & Hin & Hq & Ht)|(Hz & det & q & Hin & Hq & Ht)]].
    + eapply Qlt_le_trans; eauto.
    + destruct (Hveh det Hin) as (q' & Hq' & Hle).
      rewrite Hq in Hq'. injection Hq' as <-.
      destruct Hcase as [[_ <-]|[-> _]].
      * eapply Qlt_le_trans; eauto.
      * simpl in Hle. eapply Qlt_le_trans; [exact Ht|].
        eapply Qle_trans; eauto.
    + destruct Hcase as [[Hnz _]|[_ Hall]].
      * exfalso. apply Hnz. now apply Hzero.
      * destruct (scan_spec p all (0%Q, None) (m, b) (Qle_refl 0) Hall)
          as (_ & Hevery & _).
        destruct (Hevery det Hin) as (q' & Hq' & Hle).
        rewrite Hq in Hq'. injection Hq' as <-.
        eapply Qlt_le_trans; eauto.
Qed.

Lemma occupied_iff_witness :
  snap_status
    {| snap_id := JStr "s1"; snap_status := FREE;
       snap_overlap := 1 # 10000; snap_detection := Some "car" |} = OCCUPIED <->
  (1 # 100 < 0)%Q \/
  (exists det q, In det (vehicle_detections [car_on_corner; person_inside]) /\
                 @evaluate Reference.shapely square_ring det = Some q /\
                 (1 # 100 < q)%Q) \/
  ((forall det q, In det (vehicle_detections [car_on_corner; person_inside]) ->
                  @evaluate Reference.shapely square_ring det = Some q ->
                  (q == 0)%Q) /\
   exists det q, In det (all_detections [car_on_corner; person_inside]) /\
                 @evaluate Reference.shapely square_ring det = Some q /\
                 (1 # 100 < q)%Q).
Proof.
  apply (@occupied_iff Reference.shapely Reference.canvas (1 # 100)%Q
           (all_detections [car_on_corner; person_inside])
           (vehicle_detections [car_on_corner; person_inside])
           (JStr "s1") (JArr square_points) square_ring);
    reflexivity.
Defined.

(** ** One snapshot per evaluated spot *)

(** C5, as stated, fails: a spot whose polygon shapely refuses gets no
    snapshot at all, so the pass returns fewer snapshots than spots. *)
Lemma degenerate_spot_has_no_snapshot :
  ~ (forall (fs : gmap string json) (boxes : list yolo_box)
            (spots : list json) (results : list snapshot),
       fs !! layout_path = Some (JArr spots) ->
       @quick_fix_detection Reference.shapely Reference.canvas fs boxes
         = Some results ->
       length results = length spots).
Proof.
  intros Hc.
  specialize (Hc {[layout_path := mixed_layout]} [car_inside]
                 [spot_entry "s0" [pt 0 0; pt 1 0]; spot_entry "s1" square_points]
                 [{| snap_id := JStr "s1"; snap_status := OCCUPIED;
                     snap_overlap := 400 # 400; snap_detection := Some "car" |}]).
  assert (Hlen : 1%nat = 2%nat); [|discriminate].
  apply Hc.
  - apply lookup_singleton_eq.
  - unfold quick_fix_detection. rewrite lookup_singleton_eq.
    vm_compute. reflexivity.
Qed.

Section PassFacts.
Context `{Shapely} `{Canvas}.

Lemma entry_snapshot_status (threshold : Q) (all vehicles : list detection)
    (spot : json) (r : snapshot) :
  entry_snapshot threshold all vehicles spot = Some r ->
  snap_status r <> UNKNOWN.
Proof.
  unfold entry_snapshot.
  destruct (subscript spot "id") as [i|]; [|discriminate].
  destruct (subscript spot "polygon") as [c|]; [|discriminate].
  intros Hr.
  destruct (analyze_spot_inv _ _ _ _ _ _ Hr) as (p & m & b & _ & _ & _ & ->).
  simpl. unfold decide_status. destruct (Qgtb m threshold); discriminate.
Qed.

Lemma omap_cons {A B} (f : A -> option B) (a : A) (l : list A) :
  omap f (a :: l) =
  match f a with Some b => b :: omap f l | None => omap f l end.
Proof. reflexivity. Qed.

Lemma omap_length_le {A B} (f : A -> option B) (l : list A) :
  (length (omap f l) <= length l)%nat.
Proof.
  induction l as [|a l IH]; [apply Nat.le_refl|].
  rewrite omap_cons. destruct (f a); simpl; lia.
Qed.

Lemma omap_length_all {A B} (f : A -> option B) (l : list A) :
  (forall a, In a l -> exists b, f a = Some b) ->
  length (omap f l) = length l.
Proof.
  induction l as [|a l IH]; intros Hall; [reflexivity|].
  rewrite omap_cons.
  destruct (Hall a (or_introl eq_refl)) as [b ->]. simpl.
  f_equal. apply IH. intros a' Hin. apply Hall. now right.
Qed.

Lemma omap_skip {A B} (f : A -> option B) (before after : list A) (bad : A) :
  f bad = None ->
  omap f (before ++ bad :: after)%list = (omap f before ++ omap f after)%list.
Proof.
  intros Hbad. rewrite omap_app, omap_cons. now rewrite Hbad.
Qed.

Lemma omap_Forall {A B} (f : A -> option B) (P : B -> Prop) (l : list A) :
  (forall a b, f a = Some b -> P b) -> Forall P (omap f l).
Proof.
  intros HP. induction l as [|a l IH]; [constructor|].
  rewrite omap_cons.
  destruct (f a) as [b|] eqn:E; [constructor; eauto|exact IH].
Qed.

End PassFacts.

(** C5, amended.  On a layout whose entries all carry an id and a polygon,
    an inference pass returns, in registry order, one snapshot for every
    spot whose evaluation goes through and none for a spot whose evaluation
    fails; no snapshot is UNKNOWN; a failing spot leaves the snapshots of
    the other spots as they are; when no evaluation fails there is exactly
    one snapshot per spot. *)
Theorem snapshots_of_evaluated_spots `{Shapely} `{Canvas} (threshold : Q)
    (spots : list json) (boxes : list yolo_box) :
  forallb has_keys spots = true ->
  let snap := entry_snapshot threshold (all_detections boxes)
                (vehicle_detections boxes) in
  exists results,
    run_detection threshold (JArr spots) boxes = Some results /\
    results = omap snap spots /\
    (length results <= length spots)%nat /\
    Forall (fun r => snap_status r <> UNKNOWN) results /\
    (forall before bad after,
        spots = (before ++ bad :: after)%list -> snap bad = None ->
        results = (omap snap before ++ omap snap after)%list) /\
    ((forall spot, In spot spots -> exists r, snap spot = Some r) ->
     length results = length spots).
Proof.
  intros Hk snap. exists (omap snap spots).
  split; [apply run_detection_omap, Hk|]. split; [reflexivity|].
  split; [apply omap_length_le|]. split.
  { apply omap_Forall. intros a b. apply entry_snapshot_status. }
  split.
  - intros before bad after -> Hbad. now apply omap_skip.
  - apply omap_length_all.
Qed.

Lemma snapshots_of_evaluated_spots_witness :
  exists results,
    @run_detection Reference.shapely Reference.canvas (1 # 100) mixed_layout
      [car_inside] = Some results /\
    length results = 1%nat.
Proof.
  destruct (@snapshots_of_evaluated_spots Reference.shapely Reference.canvas
              (1 # 100)%Q
              [spot_entry "s0" [pt 0 0; pt 1 0]; spot_entry "s1" square_points]
              [car_inside] eq_refl)
    as (results & Hrun & Hres & _).
  exists results. split; [exact Hrun|]. rewrite Hres. reflexivity.
Defined.

(** ** Loading the layout *)

(** C6, as stated, fails: neither program checks what it loads.  The
    editor takes the entry with two points into its registry instead of
    starting afresh, and the inference pass reads the file without raising. *)
Lemma short_polygon_is_loaded :
  ~ (forall (fs : gmap string json) (entries : list json),
       fs !! layout_path = Some (JArr entries) ->
       existsb short_polygon entries = true ->
       start fs = fresh fs \/
       @quick_fix_detection Reference.shapely Reference.canvas fs [] = None).
Proof.
  intros Hc.
  destruct (Hc {[layout_path := two_point_layout]}
               [spot_entry "s1" [pt 0 0; pt 1 0]]
               (lookup_singleton_eq _ _) eq_refl) as [Hs|Hq].
  - unfold start in Hs. rewrite lookup_singleton_eq in Hs.
    apply (f_equal spots) in Hs. discriminate.
  - unfold quick_fix_detection in Hq. rewrite lookup_singleton_eq in Hq.
    vm_compute in Hq. discriminate.
Qed.

(** C6, amended.  Loading performs no validation: whatever list the layout
    file holds becomes the registry of the editor, entry for entry, and the
    input of the inference pass; in particular the layout whose only
    polygon has two points is loaded as it is, and the next spot is numbered
    after it. *)
Theorem load_accepts_every_list :
  (forall (fs : gmap string json) (entries : list json),
      fs !! layout_path = Some (JArr entries) ->
      spots (start fs) = entries /\
      spot_counter (start fs) = Z.of_nat (length entries) + 1 /\
      printed (start fs) = [Loaded (length entries)] /\
      forall (G : Shapely) (C : Canvas) (boxes : list yolo_box),
        quick_fix_detection fs boxes =
        run_detection (1 # 100) (JArr entries) boxes) /\
  spots (start {[layout_path := two_point_layout]}) =
    [spot_entry "s1" [pt 0 0; pt 1 0]] /\
  spot_counter (start {[layout_path := two_point_layout]}) = 2.
Proof.
  assert (Hgen : forall (fs : gmap string json) (entries : list json),
      fs !! layout_path = Some (JArr entries) ->
      spots (start fs) = entries /\
      spot_counter (start fs) = Z.of_nat (length entries) + 1 /\
      printed (start fs) = [Loaded (length entries)] /\
      forall (G : Shapely) (C : Canvas) (boxes : list yolo_box),
        quick_fix_detection fs boxes =
        run_detection (1 # 100) (JArr entries) boxes).
  { intros fs entries Hfs. unfold start, quick_fix_detection. rewrite Hfs.
    simpl. repeat split; reflexivity. }
  split; [exact Hgen|].
  destruct (Hgen {[layout_path := two_point_layout]}
                 [spot_entry "s1" [pt 0 0; pt 1 0]]
                 (lookup_singleton_eq _ _)) as (Hs & Hn & _).
  split; [exact Hs|exact Hn].
Qed.

Lemma load_accepts_every_list_witness :
  spots (start {[layout_path := square_layout]}) =
    [spot_entry "s1" square_points].
Proof.
  apply (proj1 load_accepts_every_list {[layout_path := square_layout]}
           [spot_entry "s1" square_points]).
  apply lookup_singleton_eq.
Defined.

(** ** The calibration editor *)

Lemma ord_q : ord "q" = 113. Proof. reflexivity. Qed.
Lemma ord_s : ord "s" = 115. Proof. reflexivity. Qed.
Lemma ord_r : ord "r" = 114. Proof. reflexivity. Qed.
Lemma ord_u : ord "u" = 117. Proof. reflexivity. Qed.

Lemma undo_nonempty (st : editor) (removed_id : json) :
  (0 < length (spots st))%nat ->
  subscript (List.last (spots st) JNull) "id" = Some removed_id ->
  undo_last_spot st =
  Some {| spots := removelast (spots st);
          current_polygon := current_polygon st;
          spot_counter := spot_counter st - 1; files := files st;
          printed := (printed st ++ [Removed removed_id])%list;
          running := running st |}.
Proof.
  intros Hlen Hid. unfold undo_last_spot, key_pressed.
  rewrite ord_u, ord_q, ord_s, ord_r. simpl Z.eqb. cbv iota.
  apply Nat.ltb_lt in Hlen. rewrite Hlen, Hid. reflexivity.
Qed.

Lemma undo_empty (st : editor) :
  spots st = [] -> undo_last_spot st = Some (say NoSpotsToUndo st).
Proof.
  intros He. unfold undo_last_spot, key_pressed.
  rewrite ord_u, ord_q, ord_s, ord_r. simpl Z.eqb. cbv iota.
  rewrite He. reflexivity.
Qed.

Lemma save_empty (st : editor) :
  spots st = [] -> save_and_exit st = Some (say NoSpotsToSave st).
Proof.
  intros He. unfold save_and_exit, key_pressed.
  rewrite ord_q, ord_s. simpl Z.eqb. cbv iota.
  rewrite He. reflexivity.
Qed.

(** Three clicks fill the buffer; the counter and the registry wait for
    the fourth. *)
Lemma add_point_collecting (x y : Z) (st : editor) :
  length (current_polygon st) <> 3%nat ->
  add_point x y st =
  {| spots := spots st;
     current_polygon := (current_polygon st ++ [(x, y)])%list;
     spot_counter := spot_counter st; files := files st;
     printed := (printed st ++
                 [PointClicked (S (length (current_polygon st))) x y])%list;
     running := running st |}.
Proof.
  intros Hn. unfold add_point, mouse_callback.
  rewrite length_app, Nat.add_1_r.
  destruct (Nat.eqb_spec (S (length (current_polygon st))) 4) as [E|_].
  - exfalso. apply Hn. now injection E.
  - reflexivity.
Qed.

Lemma add_point_completing (x y : Z) (st : editor) :
  length (current_polygon st) = 3%nat ->
  add_point x y st =
  {| spots := (spots st ++
               [new_spot (spot_name (spot_counter st))
                  (current_polygon st ++ [(x, y)])])%list;
     current_polygon := [];
     spot_counter := spot_counter st + 1; files := files st;
     printed := (printed st ++ [PointClicked 4 x y] ++
                 [Added (spot_name (spot_counter st))])%list;
     running := running st |}.
Proof.
  intros Hn. unfold add_point, mouse_callback.
  rewrite length_app, Hn. simpl. now rewrite <- app_assoc.
Qed.

(** Every state of a session numbers the next spot after the registry. *)
Lemma start_counter (fs : gmap string json) : counter_follows (start fs).
Proof.
  unfold start, counter_follows.
  destruct (fs !! layout_path) as [j|]; [|reflexivity].
  destruct (py_iter j); reflexivity.
Qed.

Lemma mouse_callback_counter (e : mouse_event) (x y : Z) (st : editor) :
  counter_follows st -> counter_follows (mouse_callback e x y st).
Proof.
  unfold counter_follows. intros Hc. destruct e; [|exact Hc].
  unfold mouse_callback.
  destruct (Nat.eqb _ 4); simpl; [|exact Hc].
  rewrite length_app. simpl. lia.
Qed.

Lemma key_pressed_counter (key : Z) (st st' : editor) :
  counter_follows st -> key_pressed key st = Some st' -> counter_follows st'.
Proof.
  unfold counter_follows, key_pressed. intros Hc.
  destruct (Z.eqb key (ord "q")); [intros [= <-]; exact Hc|].
  destruct (Z.eqb key (ord "s")).
  { destruct (Nat.ltb 0 _); intros [= <-]; exact Hc. }
  destruct (Z.eqb key (ord "r")); [intros [= <-]; exact Hc|].
  destruct (Z.eqb key (ord "u")); [|intros [= <-]; exact Hc].
  destruct (Nat.ltb 0 (length (spots st))) eqn:Hl; [|intros [= <-]; exact Hc].
  destruct (subscript _ "id"); [|discriminate].
  intros [= <-]. simpl. apply Nat.ltb_lt in Hl.
  destruct (spots st) as [|a l] using rev_ind; [simpl in Hl; lia|].
  rewrite removelast_last. rewrite length_app in Hc. simpl in Hc. lia.
Qed.

Lemma clicks_counter (clicks : list click) :
  forall st, counter_follows st -> counter_follows (fold_left clicked clicks st).
Proof.
  induction clicks as [|[[e x] y] rest IH]; intros st Hc; simpl; [exact Hc|].
  apply IH, mouse_callback_counter, Hc.
Qed.

Lemma session_counter `{Canvas} (turns : list (list click * Z)) :
  forall st st', counter_follows st -> session turns st = Some st' ->
                 counter_follows st'.
Proof.
  induction turns as [|[clicks key] rest IH]; intros st st' Hc; simpl.
  - now intros [= <-].
  - destruct (running st); [|now intros [= <-]].
    unfold loop_turn. destruct (draw_interface st); [|discriminate].
    destruct (key_pressed key _) as [st1|] eqn:Hk; [|discriminate].
    apply IH. eapply key_pressed_counter; [|exact Hk].
    apply clicks_counter, Hc.
Qed.

(** A whole session: four clicks, an idle turn, an undo on the empty
    registry that follows the undo of the new spot, and a save that is
    refused. *)
Lemma session_example :
  option_map (fun st => (spots st, printed st, running st))
    (@session Reference.canvas
       [([(EVENT_LBUTTONDOWN, 0, 0); (EVENT_LBUTTONDOWN, 100, 0)], 255);
        ([(EVENT_LBUTTONDOWN, 100, 100); (EVENT_LBUTTONDOWN, 0, 100)], ord "u");
        ([], ord "u"); ([], ord "s")]
       (fresh ∅)) =
  Some ([],
        [StartingFresh; PointClicked 1 0 0; PointClicked 2 100 0;
         PointClicked 3 100 100; PointClicked 4 0 100; Added "spot_1";
         Removed (JStr "spot_1"); NoSpotsToUndo; NoSpotsToSave],
        true).
Proof. vm_compute. reflexivity. Qed.

(** The ids the editor gives: [spot_] and the decimal numeral. *)
Lemma spot_name_examples :
  spot_name 1 = "spot_1" /\ spot_name 12 = "spot_12" /\
  spot_name 105 = "spot_105".
Proof. repeat split; reflexivity. Qed.

(** C7.  From an empty pending buffer, four clicks add exactly one spot to
    the registry: the dict whose ["polygon"] is the list of the four
    clicked points in click order and whose ["id"] is [spot_] followed by
    the decimal numeral of the registry length plus one; the buffer is
    empty again.  An undo right afterwards removes that spot and gives back
    the registry and the counter as they were. *)
Theorem four_clicks_then_undo (st : editor) (x1 y1 x2 y2 x3 y3 x4 y4 : Z) :
  current_polygon st = [] ->
  spot_counter st = Z.of_nat (length (spots st)) + 1 ->
  let st4 := add_point x4 y4 (add_point x3 y3 (add_point x2 y2 (add_point x1 y1 st))) in
  let spot_id :=
    "spot_" ++ NilZero.string_of_int (Z.to_int (Z.of_nat (length (spots st)) + 1)) in
  let spot :=
    JObj [("id", JStr spot_id);
          ("polygon", JArr [JArr [JNum x1; JNum y1]; JArr [JNum x2; JNum y2];
                            JArr [JNum x3; JNum y3]; JArr [JNum x4; JNum y4]])] in
  spots st4 = (spots st ++ [spot])%list /\
  current_polygon st4 = [] /\
  spot_counter st4 = spot_counter st + 1 /\
  files st4 = files st /\ running st4 = running st /\
  printed st4 =
    (printed st ++ [PointClicked 1 x1 y1; PointClicked 2 x2 y2;
                    PointClicked 3 x3 y3; PointClicked 4 x4 y4;
                    Added spot_id])%list /\
  exists st5,
    undo_last_spot st4 = Some st5 /\
    spots st5 = spots st /\
    current_polygon st5 = [] /\
    spot_counter st5 = spot_counter st /\
    files st5 = files st /\ running st5 = running st /\
    printed st5 = (printed st4 ++ [Removed (JStr spot_id)])%list.
Proof.
  intros Hbuf Hcount.
  destruct st as [sp cp n fs out run]. simpl in Hbuf, Hcount. subst cp n.
  rewrite (add_point_collecting x1 y1) by (simpl; discriminate). simpl.
  rewrite (add_point_collecting x2 y2) by (simpl; discriminate). simpl.
  rewrite (add_point_collecting x3 y3) by (simpl; discriminate). simpl.
  rewrite (add_point_completing x4 y4) by reflexivity.
  cbn [spots current_polygon spot_counter files printed running].
  repeat (split; [reflexivity|]).
  split; [now rewrite <- !app_assoc|].
  eexists. split.
  - apply undo_nonempty
      with (removed_id := JStr (spot_name (Z.of_nat (length sp) + 1))).
    + cbn [spots]. rewrite length_app. simpl. lia.
    + cbn [spots]. rewrite last_last. reflexivity.
  - cbn [spots current_polygon spot_counter files printed running].
    rewrite removelast_last. repeat split; try reflexivity; [lia|].
    unfold spot_name. now rewrite <- !app_assoc.
Qed.

Lemma four_clicks_then_undo_witness :
  spots (add_point 0 100 (add_point 100 100 (add_point 100 0
           (add_point 0 0 (fresh ∅))))) =
  [JObj [("id", JStr "spot_1");
         ("polygon", JArr [JArr [JNum 0; JNum 0]; JArr [JNum 100; JNum 0];
                           JArr [JNum 100; JNum 100]; JArr [JNum 0; JNum 100]])]].
Proof.
  exact (proj1 (four_clicks_then_undo (fresh ∅) 0 0 100 0 100 100 0 100
                  eq_refl eq_refl)).
Defined.

(** C8.  With no spot in the registry, save-and-exit writes no file and
    undo removes nothing; each prints its complaint, and the main loop goes
    on with the turns that follow. *)
Theorem empty_registry_is_reported `{Canvas} (st : editor) :
  spots st = [] ->
  running st = true ->
  (exists st',
      save_and_exit st = Some st' /\
      files st' = files st /\
      printed st' = (printed st ++ [NoSpotsToSave])%list /\
      running st' = true /\
      spots st' = [] /\ current_polygon st' = current_polygon st /\
      spot_counter st' = spot_counter st /\
      forall rest, session (([], ord "s") :: rest) st = session rest st') /\
  (exists st',
      undo_last_spot st = Some st' /\
      files st' = files st /\
      printed st' = (printed st ++ [NoSpotsToUndo])%list /\
      running st' = true /\
      spots st' = [] /\ current_polygon st' = current_polygon st /\
      spot_counter st' = spot_counter st /\
      forall rest, session (([], ord "u") :: rest) st = session rest st').
Proof.
  intros He Hrun.
  assert (Hdraw : draw_interface st = true)
    by (unfold draw_interface; now rewrite He).
  split.
  - exists (say NoSpotsToSave st). split; [apply save_empty, He|].
    simpl. repeat (split; [assumption || reflexivity|]).
    intros rest. simpl. unfold loop_turn. rewrite Hrun, Hdraw. simpl.
    change (key_pressed (ord "s") st) with (save_and_exit st).
    now rewrite (save_empty _ He).
  - exists (say NoSpotsToUndo st). split; [apply undo_empty, He|].
    simpl. repeat (split; [assumption || reflexivity|]).
    intros rest. simpl. unfold loop_turn. rewrite Hrun, Hdraw. simpl.
    change (key_pressed (ord "u") st) with (undo_last_spot st).
    now rewrite (undo_empty _ He).
Qed.

Lemma empty_registry_is_reported_witness :
  exists st',
    save_and_exit (fresh ∅) = Some st' /\
    files st' = ∅ /\
    printed st' = [StartingFresh; NoSpotsToSave] /\
    running st' = true.
Proof.
  destruct (proj1 (@empty_registry_is_reported Reference.canvas (fresh ∅)
                     eq_refl eq_refl))
    as (st' & Hs & Hf & Hp & Hr & _).
  exists st'. repeat split; assumption.
Defined.

(** ** The two overlap tests *)

Lemma ratio_grows_as_area_shrinks (t x a b : Q) :
  (0 < t)%Q -> (0 < a)%Q -> (a <= b)%Q -> (t < x / b)%Q -> (t < x / a)%Q.
Proof.
  intros Ht Ha Hab Hx.
  assert (Hb : (0 < b)%Q) by (eapply Qlt_le_trans; eauto).
  assert (Hb0 : ~ (b == 0)%Q).
  { intros E. rewrite E in Hb. exact (Qlt_irrefl _ Hb). }
  apply Qlt_shift_div_l; [exact Ha|].
  apply Qle_lt_trans with (t * b)%Q.
  - rewrite !(Qmult_comm t). apply Qmult_le_compat_r; [exact Hab|].
    apply Qlt_le_weak, Ht.
  - apply (Qmult_lt_r _ _ b Hb) in Hx.
    unfold Qdiv in Hx. rewrite <- Qmult_assoc in Hx.
    rewrite (Qmult_comm (/ b)), (Qmult_inv_r _ Hb0), Qmult_1_r in Hx.
    exact Hx.
Qed.

(** The loop of [spot_mapper.py] applies [both_perspectives] at 0.15 to
    every detection in turn. *)
Lemma mapper_occupied_step `{Shapely} (spot_poly inter : geom)
    (x1 y1 x2 y2 : Z) (rest : list (Z * Z * Z * Z)) :
  intersection spot_poly (box x1 y1 x2 y2) = Some inter ->
  ~ (area spot_poly == 0)%Q ->
  ~ (area (box x1 y1 x2 y2) == 0)%Q ->
  mapper_occupied spot_poly ((x1, y1, x2, y2) :: rest) =
  if both_perspectives (15 # 100) (area inter) (area spot_poly)
       (area (box x1 y1 x2 y2))
  then Some true else mapper_occupied spot_poly rest.
Proof.
  intros Hi Hp Hb. simpl. rewrite Hi.
  apply Qeq_bool_false in Hp, Hb. rewrite Hp, Hb.
  unfold both_perspectives.
  destruct (Qgtb (area inter / area spot_poly) (15 # 100)); [reflexivity|].
  destruct (Qgtb (area inter / area (box x1 y1 x2 y2)) (15 # 100)); reflexivity.
Qed.

(** C10.  For positive areas and a positive threshold, the test of
    [spot_mapper.py] (the overlap over the spot area, or over the box area,
    exceeds the threshold) and the test of [spotection_system.py] (the
    overlap over the smaller of the two areas exceeds it) agree, whatever
    the overlap area. *)
Theorem overlap_tests_agree (t overlap_area spot_area box_area : Q) :
  (0 < spot_area)%Q -> (0 < box_area)%Q -> (0 < t)%Q ->
  both_perspectives t overlap_area spot_area box_area =
  min_normalized t overlap_area spot_area box_area.
Proof.
  intros Hs Hb Ht. apply eq_true_iff_eq.
  unfold both_perspectives, min_normalized.
  rewrite orb_true_iff, !Qgtb_true.
  destruct (Q.min_spec spot_area box_area) as [[Hlt Hmin]|[Hle Hmin]];
    rewrite Hmin.
  - split; [|now left]. intros [Hl|Hr]; [exact Hl|].
    eapply ratio_grows_as_area_shrinks; eauto. apply Qlt_le_weak, Hlt.
  - split; [|now right]. intros [Hl|Hr]; [|exact Hr].
    eapply ratio_grows_as_area_shrinks; eauto.
Qed.

Lemma overlap_tests_agree_witness :
  both_perspectives (15 # 100) 400 10000 400 = true /\
  min_normalized (15 # 100) 400 10000 400 = true.
Proof.
  split.
  - reflexivity.
  - rewrite <- (overlap_tests_agree (15 # 100) 400 10000 400); reflexivity.
Defined.

(** * Further properties of the inference pass *)

Section PassEdges.
Context `{Shapely} `{Canvas}.

(** After a pass the best detection is missing exactly when the maximum
    is still zero. *)
Lemma scan_shape (p : geom) (dets : list detection) (acc' : best) :
  scan p dets (0%Q, None) = Some acc' ->
  acc' = (0%Q, None) \/
  ((0 < fst acc')%Q /\
   exists det, In det dets /\ snd acc' = Some det /\
               evaluate p det = Some (fst acc')).
Proof.
  intros Hscan.
  destruct (scan_spec p dets (0%Q, None) acc' (Qle_refl 0) Hscan)
    as (_ & _ & [->|(det & Hin & He & Hs & Hlt)]); [now left|].
  right. split; [exact Hlt|]. exists det. auto.
Qed.

Lemma match_detections_shape (p : geom) (all vehicles : list detection)
    (acc : best) :
  match_detections p all vehicles = Some acc ->
  acc = (0%Q, None) \/
  ((0 < fst acc)%Q /\
   exists det, In det (vehicles ++ all)%list /\ snd acc = Some det /\
               evaluate p det = Some (fst acc)).
Proof.
  intros Hm.
  destruct (match_detections_spec _ _ _ _ Hm)
    as (prim & Hprim & [[_ ->]|[_ Hall]]).
  - destruct (scan_shape _ _ _ Hprim) as [E|(Hpos & det & Hin & Hs & He)];
      [now left|right].
    split; [exact Hpos|]. exists det. split; [|auto].
    apply in_or_app. now left.
  - destruct (scan_shape _ _ _ Hall) as [E|(Hpos & det & Hin & Hs & He)];
      [now left|right].
    split; [exact Hpos|]. exists det. split; [|auto].
    apply in_or_app. now right.
Qed.

Lemma spot_loop_missing_key (threshold : Q) (all vehicles : list detection)
    (spots : list json) :
  forall results_data,
    forallb has_keys spots = false ->
    spot_loop threshold all vehicles spots results_data = None.
Proof.
  induction spots as [|spot rest IH]; intros acc Hk; simpl in *.
  - discriminate.
  - unfold has_keys in Hk.
    destruct (subscript spot "id") as [i|]; [|reflexivity].
    destruct (subscript spot "polygon") as [c|]; [|reflexivity].
    simpl in Hk.
    destruct (analyze_spot threshold all vehicles i c); apply IH, Hk.
Qed.

Lemma spot_loop_statuses (threshold : Q) (all vehicles : list detection)
    (spots : list json) :
  forall results_data results,
    Forall (fun r => snap_status r <> UNKNOWN) results_data ->
    spot_loop threshold all vehicles spots results_data = Some results ->
    Forall (fun r => snap_status r <> UNKNOWN) results.
Proof.
  induction spots as [|spot rest IH]; intros acc results Hacc; simpl.
  - now intros [= <-].
  - destruct (subscript spot "id") as [i|]; [|discriminate].
    destruct (subscript spot "polygon") as [c|]; [|discriminate].
    destruct (analyze_spot threshold all vehicles i c) as [r|] eqn:Hr.
    + apply IH. apply Forall_app. split; [exact Hacc|].
      constructor; [|constructor].
      destruct (analyze_spot_inv _ _ _ _ _ _ Hr) as (p & m & b & _ & _ & _ & ->).
      simpl. unfold decide_status. destruct (Qgtb m threshold); discriminate.
    + apply IH, Hacc.
Qed.

End PassEdges.

(** X1.  With an empty detection list the pass does not raise on a layout
    whose entries carry their keys, and every spot whose polygon shapely
    accepts and OpenCV draws is FREE with overlap 0 and no matched
    detection, at every non-negative threshold. *)
Theorem no_detection_all_free `{Shapely} `{Canvas} (threshold : Q)
    (spots : list json) :
  (0 <= threshold)%Q ->
  forallb has_keys spots = true ->
  exists results,
    run_detection threshold (JArr spots) [] = Some results /\
    Forall (fun r => snap_status r = FREE /\ snap_overlap r = 0%Q /\
                     snap_detection r = None) results /\
    (forall spot spot_id coords p,
        In spot spots ->
        subscript spot "id" = Some spot_id ->
        subscript spot "polygon" = Some coords ->
        Polygon coords = Some p -> draw_spot coords = true ->
        In {| snap_id := spot_id; snap_status := FREE;
              snap_overlap := 0; snap_detection := None |} results).
Proof.
  intros Ht Hk.
  rewrite (run_detection_omap _ _ _ Hk). eexists. split; [reflexivity|].
  assert (Hdec : decide_status threshold 0 = FREE).
  { apply decide_status_free, Ht. }
  split.
  - apply omap_Forall. intros spot r. unfold entry_snapshot.
    destruct (subscript spot "id") as [i|]; [|discriminate].
    destruct (subscript spot "polygon") as [c|]; [|discriminate].
    unfold analyze_spot. destruct (Polygon c) as [p|]; [|discriminate].
    simpl. destruct (draw_spot c); [|discriminate].
    intros [= <-]. simpl. auto.
  - intros spot spot_id coords p Hin Hid Hc Hp Hd.
    apply list_elem_of_In, list_elem_of_omap. exists spot.
    split; [now apply list_elem_of_In|].
    unfold entry_snapshot. rewrite Hid, Hc. unfold analyze_spot.
    rewrite Hp. simpl. rewrite Hd, Hdec. reflexivity.
Qed.

Lemma no_detection_all_free_witness :
  exists results,
    @run_detection Reference.shapely Reference.canvas (1 # 100) square_layout []
      = Some results /\
    Forall (fun r => snap_status r = FREE /\ snap_overlap r = 0%Q /\
                     snap_detection r = None) results.
Proof.
  destruct (@no_detection_all_free Reference.shapely Reference.canvas
              (1 # 100)%Q [spot_entry "s1" square_points])
    as (results & Hrun & Hall & _).
  - discriminate.
  - reflexivity.
  - exists results. now split.
Defined.

Section TieBreak.
Context `{Shapely}.

Lemma scan_first_maximum (p : geom) (dets : list detection) :
  forall acc m b,
    (0 <= fst acc)%Q ->
    scan p dets acc = Some (m, b) ->
    ((m, b) = acc /\
     forall d' q, In d' dets -> evaluate p d' = Some q -> (q <= m)%Q) \/
    (exists before d after,
        b = Some d /\ dets = (before ++ d :: after)%list /\
        evaluate p d = Some m /\ (fst acc < m)%Q /\
        (forall d' q, In d' before -> evaluate p d' = Some q -> (q < m)%Q) /\
        (forall d' q, In d' after -> evaluate p d' = Some q -> (q <= m)%Q)).
Proof.
  induction dets as [|x rest IH]; intros acc m b Hacc Hscan; simpl in Hscan.
  - injection Hscan as <-. left. split; [reflexivity|]. intros d' q [].
  - rewrite (visit_evaluate _ _ _ Hacc) in Hscan.
    destruct (evaluate p x) as [qx|] eqn:Hx; [|discriminate].
    cmp qx (fst acc).
    + assert (Hq0 : (0 <= fst (qx, Some x))%Q)
        by (simpl; eapply evaluate_nonneg; eauto).
      right.
      destruct (IH _ _ _ Hq0 Hscan)
        as [[Heq Hrest]|(before & d & after & Hb & Hd & He & Hlt & Hbef & Haft)].
      * injection Heq as -> ->. exists [], x, rest.
        repeat split; auto. intros d' q [].
      * simpl in Hlt. exists (x :: before), d, after.
        split; [exact Hb|]. split; [now rewrite Hd|]. split; [exact He|].
        split; [eapply Qlt_trans; eauto|]. split; [|exact Haft].
        intros d' q [<-|Hin] Hq; [|eauto].
        rewrite Hx in Hq. injection Hq as <-. exact Hlt.
    + destruct (IH _ _ _ Hacc Hscan)
        as [[Heq Hrest]|(before & d & after & Hb & Hd & He & Hlt & Hbef & Haft)].
      * left. split; [exact Heq|]. intros d' q [<-|Hin] Hq; [|eauto].
        rewrite Hx in Hq. injection Hq as <-. rewrite <- Heq in E. exact E.
      * right. exists (x :: before), d, after.
        split; [exact Hb|]. split; [now rewrite Hd|]. split; [exact He|].
        split; [exact Hlt|]. split; [|exact Haft].
        intros d' q [<-|Hin] Hq; [|eauto].
        rewrite Hx in Hq. injection Hq as <-.
        eapply Qle_lt_trans; eauto.
Qed.

End TieBreak.

(** X2.  Ties go to the detection met first: the detection a pass keeps
    attains the maximum ratio, every detection before it in the list has a
    strictly smaller ratio, and none after it has a larger one. *)
Theorem first_maximum_wins `{Shapely} (p : geom) (dets : list detection)
    (m : Q) (d : detection) :
  scan p dets (0%Q, None) = Some (m, Some d) ->
  exists before after,
    dets = (before ++ d :: after)%list /\
    evaluate p d = Some m /\
    (forall d' q, In d' before -> evaluate p d' = Some q -> (q < m)%Q) /\
    (forall d' q, In d' after -> evaluate p d' = Some q -> (q <= m)%Q).
Proof.
  intros Hscan.
  destruct (scan_first_maximum p dets (0%Q, None) m (Some d) (Qle_refl 0) Hscan)
    as [[Heq _]|(before & d0 & after & Hb & Hd & He & _ & Hbef & Haft)].
  - discriminate.
  - injection Hb as <-. exists before, after. auto.
Qed.

Lemma first_maximum_wins_witness :
  exists before after,
    all_detections [car_on_corner; car_inside; person_inside] =
      (before ++ detection_of 1 car_inside :: after)%list /\
    forall d' q, In d' before ->
                 @evaluate Reference.shapely square_ring d' = Some q ->
                 (q < 400 # 400)%Q.
Proof.
  destruct (@first_maximum_wins Reference.shapely square_ring
              (all_detections [car_on_corner; car_inside; person_inside])
              (400 # 400)%Q (detection_of 1 car_inside) eq_refl)
    as (before & after & Hd & _ & Hbef & _).
  exists before, after. now split.
Defined.

(** X3.  An entry without an id or without a polygon makes the whole pass
    raise, whatever the other entries and the detections are: the two
    subscripts stand outside the try block. *)
Theorem missing_key_aborts `{Shapely} `{Canvas} (threshold : Q)
    (spots : list json) (boxes : list yolo_box) :
  forallb has_keys spots = false ->
  run_detection threshold (JArr spots) boxes = None.
Proof.
  intros Hk. unfold run_detection, py_iter.
  now rewrite (spot_loop_missing_key _ _ _ _ _ Hk).
Qed.

Lemma missing_key_aborts_witness :
  @run_detection Reference.shapely Reference.canvas (1 # 100)
    (JArr [spot_entry "s1" square_points; JObj [("id", JStr "s2")]])
    [car_inside] = None.
Proof.
  apply (@missing_key_aborts Reference.shapely Reference.canvas). reflexivity.
Defined.

(** X4.  A snapshot names no detection exactly when its overlap is zero;
    otherwise the class it names is that of a detection whose ratio is the
    overlap.  In particular an OCCUPIED snapshot at a non-negative threshold
    always names a detection. *)
Theorem matched_detection_iff_overlap `{Shapely} `{Canvas} (threshold : Q)
    (all vehicles : list detection) (spot_id coords : json) (p : geom)
    (r : snapshot) :
  Polygon coords = Some p ->
  analyze_spot threshold all vehicles spot_id coords = Some r ->
  (0 <= snap_overlap r)%Q /\
  (snap_detection r = None <-> (snap_overlap r == 0)%Q) /\
  (forall c, snap_detection r = Some c ->
     exists det, In det (vehicles ++ all)%list /\ det_class det = c /\
                 evaluate p det = Some (snap_overlap r)) /\
  ((0 <= threshold)%Q -> snap_status r = OCCUPIED ->
   exists c, snap_detection r = Some c).
Proof.
  intros Hp Hr.
  destruct (analyze_spot_inv _ _ _ _ _ _ Hr) as (p' & m & b & Hp' & Hm & _ & ->).
  rewrite Hp in Hp'. injection Hp' as <-. simpl.
  destruct (match_detections_shape _ _ _ _ Hm)
    as [E|(Hpos & det & Hin & Hs & He)]; simpl in *.
  - injection E as -> ->. simpl. split; [apply Qle_refl|].
    split; [split; intros _; reflexivity|].
    split; [discriminate|].
    intros Ht Hocc. apply decide_status_occupied in Hocc.
    exfalso. exact (Qlt_not_le _ _ Hocc Ht).
  - subst b. simpl. split; [apply Qlt_le_weak, Hpos|]. split.
    + split; [discriminate|]. intros Hz. rewrite Hz in Hpos.
      exfalso. exact (Qlt_irrefl _ Hpos).
    + split; [|eauto]. intros c [= <-]. exists det. auto.
Qed.

Lemma matched_detection_iff_overlap_witness :
  exists det,
    In det (vehicle_detections [car_inside] ++ all_detections [car_inside])%list /\
    det_class det = "car".
Proof.
  destruct (@matched_detection_iff_overlap Reference.shapely Reference.canvas
              (1 # 100)%Q (all_detections [car_inside])
              (vehicle_detections [car_inside]) (JStr "s1") (JArr square_points)
              square_ring
              {| snap_id := JStr "s1"; snap_status := OCCUPIED;
                 snap_overlap := 400 # 400; snap_detection := Some "car" |}
              eq_refl eq_refl)
    as (_ & _ & Hc & _).
  destruct (Hc "car" eq_refl) as (det & Hin & Hcl & _).
  exists det. now split.
Defined.

Lemma count_split (results : list snapshot) :
  Forall (fun r => snap_status r <> UNKNOWN) results ->
  (length (List.filter is_free results) + count_occupied results
   = length results)%nat.
Proof.
  unfold count_occupied. induction 1 as [|r l Hr _ IH]; [reflexivity|].
  simpl. unfold is_free at 1, is_occupied at 1.
  destruct (snap_status r); simpl; try lia. contradiction.
Qed.

(** X5.  In the summary of a pass the free and the occupied counts add up
    to the number of snapshots, and the free count, computed as the rest, is
    the number of snapshots whose status is FREE. *)
Theorem summary_counts `{Shapely} `{Canvas} (threshold : Q)
    (spots_data : json) (boxes : list yolo_box) (results : list snapshot) :
  run_detection threshold spots_data boxes = Some results ->
  forall free occupied total,
    summary results = (free, occupied, total) ->
    (free + occupied = total)%nat /\
    total = length results /\
    free = length (List.filter is_free results) /\
    occupied = length (List.filter is_occupied results).
Proof.
  intros Hrun free occupied total Hsum.
  assert (Hst : Forall (fun r => snap_status r <> UNKNOWN) results).
  { unfold run_detection in Hrun.
    destruct (py_iter spots_data) as [spots|]; [|discriminate].
    destruct (spot_loop _ _ _ spots []) as [res|] eqn:Hloop; [|discriminate].
    destruct (sample_report spots_data res); [|discriminate].
    injection Hrun as <-.
    eapply spot_loop_statuses; [|exact Hloop]. constructor. }
  pose proof (count_split _ Hst) as Hsplit.
  unfold summary in Hsum. injection Hsum as <- <- <-.
  unfold count_occupied in *. repeat split; lia.
Qed.

Lemma summary_counts_witness :
  summary [{| snap_id := JStr "s1"; snap_status := OCCUPIED;
              snap_overlap := 400 # 400; snap_detection := Some "car" |}]
  = (0, 1, 1)%nat.
Proof.
  assert (Hrun : @run_detection Reference.shapely Reference.canvas (1 # 100)
                   mixed_layout [car_inside] =
                 Some [{| snap_id := JStr "s1"; snap_status := OCCUPIED;
                          snap_overlap := 400 # 400;
                          snap_detection := Some "car" |}])
    by (vm_compute; reflexivity).
  destruct (@summary_counts Reference.shapely Reference.canvas (1 # 100)%Q
              mixed_layout [car_inside] _ Hrun 0%nat 1%nat 1%nat eq_refl)
    as (_ & _ & _ & _).
  reflexivity.
Defined.

(** X6.  The pass returns results only for a layout that is a list, or for
    the empty string (with no result): a layout that is a JSON object, a
    number, a boolean, null or a non-empty string always raises. *)
Theorem only_lists_are_layouts `{Shapely} `{Canvas} (threshold : Q)
    (spots_data : json) (boxes : list yolo_box) (results : list snapshot) :
  run_detection threshold spots_data boxes = Some results ->
  (exists spots, spots_data = JArr spots) \/
  (spots_data = JStr "" /\ results = []).
Proof.
  unfold run_detection. destruct spots_data as [|b|n|q|s|items|fields];
    simpl; try discriminate.
  - destruct s as [|c s]; simpl.
    + intros [= <-]. now right.
    + discriminate.
  - intros _. left. now exists items.
  - destruct fields as [|[k v] fields]; simpl; discriminate.
Qed.

Lemma only_lists_are_layouts_witness :
  exists spots, square_layout = JArr spots.
Proof.
  assert (Hrun : @run_detection Reference.shapely Reference.canvas (1 # 100)
                   square_layout [car_far] =
                 Some [{| snap_id := JStr "s1"; snap_status := FREE;
                          snap_overlap := 0; snap_detection := None |}])
    by (vm_compute; reflexivity).
  destruct (@only_lists_are_layouts Reference.shapely Reference.canvas
              (1 # 100)%Q square_layout [car_far] _ Hrun)
    as [Hl|[Hs _]].
  - exact Hl.
  - discriminate.
Defined.

(** * Further properties of the calibration editor *)

Lemma paths_differ : layout_path <> output_json.
Proof. discriminate. Qed.

Lemma save_nonempty (st : editor) :
  spots st <> [] ->
  save_and_exit st =
  Some {| spots := spots st; current_polygon := current_polygon st;
          spot_counter := spot_counter st;
          files := <[layout_path := JArr (spots st)]>
                     (<[output_json := JArr (spots st)]> (files st));
          printed := (printed st ++ [Saved (length (spots st)) output_json;
                                     UpdatedLayout])%list;
          running := false |}.
Proof.
  intros Hne. unfold save_and_exit, key_pressed.
  rewrite ord_q, ord_s. simpl Z.eqb. cbv iota.
  destruct (spots st) as [|e l]; [contradiction|reflexivity].
Qed.

(** X7.  Saving a non-empty registry ends the session and writes the
    registry, and nothing else, to both layout files; an editor started on
    the files afterwards holds the same registry, an empty buffer and the
    counter that follows the registry. *)
Theorem save_then_reload (st : editor) :
  spots st <> [] ->
  exists st',
    save_and_exit st = Some st' /\
    running st' = false /\ spots st' = spots st /\
    files st' !! layout_path = Some (JArr (spots st)) /\
    files st' !! output_json = Some (JArr (spots st)) /\
    (forall path, path <> layout_path -> path <> output_json ->
                  files st' !! path = files st !! path) /\
    spots (start (files st')) = spots st /\
    current_polygon (start (files st')) = [] /\
    spot_counter (start (files st')) = Z.of_nat (length (spots st)) + 1.
Proof.
  intros Hne. eexists. split; [apply save_nonempty, Hne|]. simpl.
  assert (Hl : (<[layout_path := JArr (spots st)]>
                  (<[output_json := JArr (spots st)]> (files st)))
               !! layout_path = Some (JArr (spots st)))
    by apply lookup_insert_eq.
  split; [reflexivity|]. split; [reflexivity|]. split; [exact Hl|]. split.
  { rewrite lookup_insert_ne by apply paths_differ. apply lookup_insert_eq. }
  split.
  { intros path H1 H2. rewrite lookup_insert_ne by congruence.
    apply lookup_insert_ne. congruence. }
  unfold start. rewrite Hl. simpl. auto.
Qed.

Lemma save_then_reload_witness :
  exists st',
    save_and_exit (add_points [(0, 0); (100, 0); (100, 100); (0, 100)] (fresh ∅))
      = Some st' /\
    running st' = false.
Proof.
  destruct (save_then_reload
              (add_points [(0, 0); (100, 0); (100, 100); (0, 100)] (fresh ∅)))
    as (st' & Hs & Hr & _).
  - discriminate.
  - exists st'. now split.
Defined.

Lemma add_points_collecting (points : list (Z * Z)) :
  forall st,
    (length (current_polygon st) + length points < 4)%nat ->
    spots (add_points points st) = spots st /\
    current_polygon (add_points points st) = (current_polygon st ++ points)%list /\
    spot_counter (add_points points st) = spot_counter st /\
    files (add_points points st) = files st /\
    running (add_points points st) = running st.
Proof.
  induction points as [|[x y] rest IH]; intros st Hlen; simpl in *.
  - rewrite app_nil_r. auto.
  - assert (Hn : length (current_polygon st) <> 3%nat) by lia.
    change (fold_left _ rest ?s) with (add_points rest s).
    destruct (IH (add_point x y st)) as (H1 & H2 & H3 & H4 & H5).
    { rewrite (add_point_collecting _ _ _ Hn). simpl.
      rewrite length_app. simpl. lia. }
    rewrite H1, H2, H3, H4, H5, (add_point_collecting _ _ _ Hn). simpl.
    rewrite <- app_assoc. auto.
Qed.

(** X8.  Up to three clicks followed by a reset leave no trace: the
    registry, the counter and the files are as before, and the buffer is
    empty again, so the discarded points never reach a spot. *)
Theorem reset_discards_pending (st : editor) (points : list (Z * Z)) :
  current_polygon st = [] ->
  (length points < 4)%nat ->
  exists st',
    reset_current (add_points points st) = Some st' /\
    spots st' = spots st /\ current_polygon st' = [] /\
    spot_counter st' = spot_counter st /\ files st' = files st /\
    running st' = running st.
Proof.
  intros Hbuf Hlen.
  destruct (add_points_collecting points st) as (H1 & _ & H3 & H4 & H5).
  { rewrite Hbuf. simpl. lia. }
  unfold reset_current, key_pressed.
  rewrite ord_q, ord_s, ord_r. simpl Z.eqb. cbv iota.
  eexists. split; [reflexivity|]. simpl. auto.
Qed.

Lemma reset_discards_pending_witness :
  exists st',
    reset_current (add_points [(1, 2); (3, 4); (5, 6)] (fresh ∅)) = Some st' /\
    spots st' = [] /\ current_polygon st' = [].
Proof.
  destruct (reset_discards_pending (fresh ∅) [(1, 2); (3, 4); (5, 6)] eq_refl)
    as (st' & Hr & Hs & Hb & _).
  - simpl. lia.
  - exists st'. auto.
Defined.

Lemma clicked_keeps_files (clicks : list click) :
  forall st, files (fold_left clicked clicks st) = files st /\
             running (fold_left clicked clicks st) = running st.
Proof.
  induction clicks as [|[[e x] y] rest IH]; intros st; simpl; [auto|].
  destruct (IH (mouse_callback e x y st)) as [-> ->].
  destruct e; simpl; [|auto]. destruct (Nat.eqb _ 4); auto.
Qed.

Lemma key_pressed_files (key : Z) (st st' : editor) :
  key_pressed key st = Some st' ->
  (files st' = files st /\ (running st = true -> key <> ord "q" -> running st' = true)) \/
  (key = ord "s" /\ running st' = false /\ spots st' <> [] /\
   files st' = <[layout_path := JArr (spots st')]>
                 (<[output_json := JArr (spots st')]> (files st))).
Proof.
  unfold key_pressed.
  destruct (Z.eqb_spec key (ord "q")) as [->|Hq].
  { intros [= <-]. left. split; [reflexivity|]. intros _ Hn. contradiction. }
  destruct (Z.eqb_spec key (ord "s")) as [->|Hs].
  { destruct (spots st) as [|e l] eqn:Hsp; simpl.
    - intros [= <-]. left. simpl. auto.
    - intros [= <-]. right. simpl. repeat split. discriminate. }
  destruct (Z.eqb key (ord "r")); [intros [= <-]; left; simpl; auto|].
  destruct (Z.eqb key (ord "u")); [|intros [= <-]; left; auto].
  destruct (Nat.ltb 0 (length (spots st))); [|intros [= <-]; left; simpl; auto].
  destruct (subscript _ "id"); [|discriminate].
  intros [= <-]. left. simpl. auto.
Qed.

Lemma session_stopped `{Canvas} (turns : list (list click * Z)) (st : editor) :
  running st = false -> session turns st = Some st.
Proof.
  intros Hr. destruct turns as [|[clicks key] rest]; simpl; [reflexivity|].
  now rewrite Hr.
Qed.

Lemma session_files `{Canvas} (turns : list (list click * Z)) :
  forall st st',
    session turns st = Some st' ->
    (files st' = files st \/
     (running st' = false /\ spots st' <> [] /\
      files st' = <[layout_path := JArr (spots st')]>
                    (<[output_json := JArr (spots st')]> (files st)))) /\
    (Forall (fun t => snd t <> ord "s") turns -> files st' = files st).
Proof.
  induction turns as [|[clicks key] rest IH]; intros st st'; simpl.
  - intros [= <-]. auto.
  - destruct (running st) eqn:Hrun; [|intros [= <-]; auto].
    unfold loop_turn. destruct (draw_interface st); [|discriminate].
    destruct (key_pressed key (fold_left clicked clicks st)) as [st1|] eqn:Hk;
      [|discriminate].
    intros Hsess.
    destruct (clicked_keeps_files clicks st) as [Hf Hr].
    destruct (key_pressed_files _ _ _ Hk) as [[Hsame _]|(Hkey & Hstop & Hne & Hw)].
    + rewrite Hf in Hsame. destruct (IH _ _ Hsess) as [Hcase Hnos].
      rewrite Hsame in Hcase, Hnos. split; [exact Hcase|].
      intros Hall. apply Hnos. now inversion Hall.
    + rewrite (session_stopped _ _ Hstop) in Hsess. injection Hsess as <-.
      rewrite Hf in Hw. split; [right; auto|].
      intros Hall. inversion Hall as [|t l Ht _]; subst. simpl in Ht.
      contradiction.
Qed.

(** X9.  A session writes the layout files at most once: either the files
    are untouched at its end, or it ended by a save with a non-empty
    registry and both files hold the final registry.  In particular a
    session in which the save key is never pressed leaves the files as they
    were. *)
Theorem only_save_writes `{Canvas} (turns : list (list click * Z))
    (st st' : editor) :
  session turns st = Some st' ->
  (files st' = files st \/
   (running st' = false /\ spots st' <> [] /\
    files st' = <[layout_path := JArr (spots st')]>
                  (<[output_json := JArr (spots st')]> (files st)))) /\
  (Forall (fun t => snd t <> ord "s") turns -> files st' = files st).
Proof.
  intros Hs. destruct (session_files turns st st' Hs) as [Hcase Hnos].
  split.
  - destruct Hcase as [Hsame|(Hstop & Hne & Hw)]; [now left|right; auto].
  - intros Hall. exact (Hnos Hall).
Qed.

Lemma only_save_writes_witness :
  exists st',
    @session Reference.canvas
      [([(EVENT_LBUTTONDOWN, 0, 0)], 255); ([], ord "q")] (fresh ∅) = Some st' /\
    files st' = ∅.
Proof.
  eexists. split; [vm_compute; reflexivity|].
  match goal with
  | |- files ?s = _ =>
      apply (proj2 (@only_save_writes Reference.canvas
                      [([(EVENT_LBUTTONDOWN, 0, 0)], 255); ([], ord "q")]
                      (fresh ∅) s eq_refl))
  end.
  repeat constructor; simpl; discriminate.
Defined.

Section EditorSafety.
Context `{Canvas}.

Lemma mouse_callback_ok (e : mouse_event) (x y : Z) (st : editor) :
  (forall spot_id points, length points = 4%nat ->
                          draw_entry (new_spot spot_id points) = true) ->
  Forall (fun e => entry_ok e = true) (spots st) ->
  Forall (fun e => entry_ok e = true) (spots (mouse_callback e x y st)).
Proof.
  intros Hdraw Hok. destruct e; [|exact Hok]. unfold mouse_callback.
  destruct (Nat.eqb_spec (length (current_polygon st ++ [(x, y)])) 4)
    as [Hlen|_]; simpl; [|exact Hok].
  apply Forall_app. split; [exact Hok|]. constructor; [|constructor].
  unfold entry_ok. simpl. apply Hdraw, Hlen.
Qed.

Lemma clicks_ok (clicks : list click) :
  (forall spot_id points, length points = 4%nat ->
                          draw_entry (new_spot spot_id points) = true) ->
  forall st,
    Forall (fun e => entry_ok e = true) (spots st) ->
    Forall (fun e => entry_ok e = true) (spots (fold_left clicked clicks st)).
Proof.
  intros Hdraw. induction clicks as [|[[e x] y] rest IH]; intros st Hok; simpl.
  - exact Hok.
  - apply IH, mouse_callback_ok; assumption.
Qed.

Lemma key_pressed_ok (key : Z) (st : editor) :
  Forall (fun e => entry_ok e = true) (spots st) ->
  exists st', key_pressed key st = Some st' /\
              Forall (fun e => entry_ok e = true) (spots st').
Proof.
  intros Hok. unfold key_pressed.
  destruct (Z.eqb key (ord "q")); [eexists; split; [reflexivity|exact Hok]|].
  destruct (Z.eqb key (ord "s")).
  { destruct (Nat.ltb 0 _); eexists; (split; [reflexivity|exact Hok]). }
  destruct (Z.eqb key (ord "r")); [eexists; split; [reflexivity|exact Hok]|].
  destruct (Z.eqb key (ord "u")); [|eexists; split; [reflexivity|exact Hok]].
  destruct (Nat.ltb 0 (length (spots st))) eqn:Hlen;
    [|eexists; split; [reflexivity|exact Hok]].
  apply Nat.ltb_lt in Hlen.
  assert (Hne : spots st <> []).
  { intros E. rewrite E in Hlen. simpl in Hlen. lia. }
  pose proof (app_removelast_last JNull Hne) as Hsplit.
  rewrite Hsplit in Hok. apply Forall_app in Hok as [Hl Ha].
  inversion Ha as [|? ? Hid _]; subst. unfold entry_ok in Hid.
  destruct (subscript (List.last (spots st) JNull) "id") as [i|];
    [|discriminate].
  eexists. split; [reflexivity|exact Hl].
Qed.

Lemma draw_interface_ok (st : editor) :
  Forall (fun e => entry_ok e = true) (spots st) -> draw_interface st = true.
Proof.
  unfold draw_interface. intros Hok. apply forallb_forall. intros e Hin.
  rewrite List.Forall_forall in Hok. specialize (Hok e Hin).
  unfold entry_ok in Hok. now destruct (subscript e "id").
Qed.

End EditorSafety.

(** X10.  The editor never raises on entries it can draw: if the
    interface draws every completed four-point spot and every entry of the
    starting registry is drawn and has an id, then every session runs to its
    end, and the registry still has that property. *)
Theorem session_never_raises `{Canvas} (turns : list (list click * Z)) :
  (forall spot_id points, length points = 4%nat ->
                          draw_entry (new_spot spot_id points) = true) ->
  forall st,
    Forall (fun e => entry_ok e = true) (spots st) ->
    exists st', session turns st = Some st' /\
                Forall (fun e => entry_ok e = true) (spots st').
Proof.
  intros Hdraw. induction turns as [|[clicks key] rest IH]; intros st Hok; simpl.
  - eauto.
  - destruct (running st); [|eauto].
    unfold loop_turn. rewrite (draw_interface_ok _ Hok).
    destruct (key_pressed_ok key (fold_left clicked clicks st))
      as (st1 & Hk & Hok1); [now apply clicks_ok|].
    rewrite Hk. apply IH, Hok1.
Qed.

Lemma reference_draws_new_spots (spot_id : string) (points : list (Z * Z)) :
  length points = 4%nat ->
  @draw_entry Reference.canvas (new_spot spot_id points) = true.
Proof.
  destruct points as [|a [|b [|c [|d [|e l]]]]]; try discriminate.
  intros _. reflexivity.
Qed.

Lemma session_never_raises_witness :
  exists st',
    @session Reference.canvas
      [([(EVENT_LBUTTONDOWN, 0, 0); (EVENT_LBUTTONDOWN, 100, 0);
         (EVENT_LBUTTONDOWN, 100, 100); (EVENT_LBUTTONDOWN, 0, 100)], ord "u");
       ([], ord "u")]
      (fresh ∅) = Some st'.
Proof.
  destruct (@session_never_raises Reference.canvas
              [([(EVENT_LBUTTONDOWN, 0, 0); (EVENT_LBUTTONDOWN, 100, 0);
                 (EVENT_LBUTTONDOWN, 100, 100); (EVENT_LBUTTONDOWN, 0, 100)],
                ord "u");
               ([], ord "u")]
              reference_draws_new_spots (fresh ∅) (List.Forall_nil _))
    as (st' & Hs & _).
  exists st'. exact Hs.
Defined.

(** The name of a spot determines its number. *)
Lemma spot_name_inj (n m : Z) : spot_name n = spot_name m -> n = m.
Proof.
  unfold spot_name. cbn [String.append]. intros [= E].
  change (NilZero.string_of_int (Z.to_int n) =
          NilZero.string_of_int (Z.to_int m)) in E.
  assert (Hnn : forall z, Z.to_int z <> Decimal.Pos Decimal.Nil /\
                          Z.to_int z <> Decimal.Neg Decimal.Nil).
  { intros [|q|q]; simpl; split; try discriminate;
      intros [= E']; exact (DecimalPos.Unsigned.to_uint_nonnil _ E'). }
  apply (f_equal NilZero.int_of_string) in E.
  destruct (Hnn n) as [Hn1 Hn2]. destruct (Hnn m) as [Hm1 Hm2].
  rewrite !NilZero.isi in E by assumption.
  injection E as E. now apply DecimalZ.to_int_inj.
Qed.

Lemma new_spot_id (spot_id : string) (points : list (Z * Z)) :
  subscript (new_spot spot_id points) "id" = Some (JStr spot_id).
Proof. reflexivity. Qed.

Section Numbering.
Context `{Canvas}.

Lemma mouse_callback_numbering (base : list json) (e : mouse_event)
    (x y : Z) (st : editor) :
  counter_follows st -> loaded_or_made base st ->
  loaded_or_made base (mouse_callback e x y st).
Proof.
  intros Hc Hinv. destruct e; [|exact Hinv]. unfold mouse_callback.
  destruct (Nat.eqb_spec (length (current_polygon st ++ [(x, y)])) 4)
    as [Hlen|_]; [|exact Hinv].
  intros i entry. simpl. intros Hi.
  destruct (Nat.lt_ge_cases i (length (spots st))) as [Hlt|Hge].
  - rewrite nth_error_app1 in Hi by exact Hlt. now apply Hinv.
  - rewrite nth_error_app2 in Hi by exact Hge.
    destruct (i - length (spots st))%nat as [|k] eqn:Hk; simpl in Hi.
    + injection Hi as <-. right.
      exists (current_polygon st ++ [(x, y)])%list. split; [|exact Hlen].
      f_equal. f_equal. unfold counter_follows in Hc. rewrite Hc.
      f_equal. f_equal. lia.
    + destruct k; discriminate.
Qed.

Lemma clicks_numbering (base : list json) (clicks : list click) :
  forall st, counter_follows st -> loaded_or_made base st ->
             loaded_or_made base (fold_left clicked clicks st).
Proof.
  induction clicks as [|[[e x] y] rest IH]; intros st Hc Hinv; simpl.
  - exact Hinv.
  - apply IH; [now apply mouse_callback_counter|].
    now apply mouse_callback_numbering.
Qed.

Lemma key_pressed_numbering (base : list json) (key : Z) (st st' : editor) :
  loaded_or_made base st -> key_pressed key st = Some st' ->
  loaded_or_made base st'.
Proof.
  intros Hinv. unfold key_pressed.
  destruct (Z.eqb key (ord "q")); [intros [= <-]; exact Hinv|].
  destruct (Z.eqb key (ord "s")).
  { destruct (Nat.ltb 0 _); intros [= <-]; exact Hinv. }
  destruct (Z.eqb key (ord "r")); [intros [= <-]; exact Hinv|].
  destruct (Z.eqb key (ord "u")); [|intros [= <-]; exact Hinv].
  destruct (Nat.ltb 0 (length (spots st))); [|intros [= <-]; exact Hinv].
  destruct (subscript _ "id"); [|discriminate].
  intros [= <-]. intros i e. simpl. intros Hi. apply Hinv.
  destruct (spots st) as [|a l] using rev_ind; [destruct i; discriminate|].
  rewrite removelast_last in Hi. rewrite nth_error_app1; [exact Hi|].
  apply nth_error_Some. congruence.
Qed.

Lemma session_numbering (base : list json) (turns : list (list click * Z)) :
  forall st st',
    counter_follows st -> loaded_or_made base st ->
    session turns st = Some st' -> loaded_or_made base st'.
Proof.
  induction turns as [|[clicks key] rest IH]; intros st st' Hc Hinv; simpl.
  - now intros [= <-].
  - destruct (running st); [|now intros [= <-]].
    unfold loop_turn. destruct (draw_interface st); [|discriminate].
    destruct (key_pressed key _) as [st1|] eqn:Hk; [|discriminate].
    apply IH.
    + eapply key_pressed_counter; [|exact Hk]. now apply clicks_counter.
    + eapply key_pressed_numbering; [|exact Hk]. now apply clicks_numbering.
Qed.

End Numbering.

(** X11.  Whatever happens in a session, every entry of the registry is
    either the entry the session started with at that index, or a spot made
    by the editor: four clicked points under the id [spot_<index + 1>].  A
    session that starts with an empty registry therefore ends with pairwise
    distinct ids. *)
Theorem entries_are_loaded_or_numbered `{Canvas}
    (turns : list (list click * Z)) (st st' : editor) :
  spot_counter st = Z.of_nat (length (spots st)) + 1 ->
  session turns st = Some st' ->
  (forall i e, nth_error (spots st') i = Some e ->
               nth_error (spots st) i = Some e \/ editor_made i e) /\
  (spots st = [] ->
   List.NoDup (map (fun e => subscript e "id") (spots st'))).
Proof.
  intros Hc Hs.
  assert (Hinv : loaded_or_made (spots st) st') .
  { eapply session_numbering; [exact Hc| |exact Hs]. intros i e Hi. now left. }
  split; [exact Hinv|]. intros Hempty.
  apply List.NoDup_nth_error. intros i j Hi Heq.
  rewrite length_map in Hi. rewrite !nth_error_map in Heq.
  destruct (nth_error (spots st') i) as [ei|] eqn:Hei;
    [|apply nth_error_None in Hei; lia].
  destruct (nth_error (spots st') j) as [ej|] eqn:Hej; [|discriminate].
  destruct (Hinv _ _ Hei) as [Hb|(pi & -> & _)];
    [rewrite Hempty in Hb; destruct i; discriminate|].
  destruct (Hinv _ _ Hej) as [Hb|(pj & -> & _)];
    [rewrite Hempty in Hb; destruct j; discriminate|].
  cbn [option_map] in Heq. rewrite !new_spot_id in Heq.
  assert (Hn : spot_name (Z.of_nat i + 1) = spot_name (Z.of_nat j + 1))
    by congruence.
  apply spot_name_inj in Hn. lia.
Qed.

Lemma entries_are_loaded_or_numbered_witness :
  exists st',
    @session Reference.canvas
      [([(EVENT_LBUTTONDOWN, 0, 0); (EVENT_LBUTTONDOWN, 100, 0);
         (EVENT_LBUTTONDOWN, 100, 100); (EVENT_LBUTTONDOWN, 0, 100)], 255)]
      (fresh ∅) = Some st' /\
    List.NoDup (map (fun e => subscript e "id") (spots st')).
Proof.
  eexists. split; [vm_compute; reflexivity|].
  match goal with
  | |- List.NoDup (map _ (spots ?s)) =>
      apply (proj2 (@entries_are_loaded_or_numbered Reference.canvas
                      [([(EVENT_LBUTTONDOWN, 0, 0); (EVENT_LBUTTONDOWN, 100, 0);
                         (EVENT_LBUTTONDOWN, 100, 100);
                         (EVENT_LBUTTONDOWN, 0, 100)], 255)]
                      (fresh ∅) s eq_refl eq_refl) eq_refl)
  end.
Defined.

(** X12.  The preview is shown exactly when three points are pending, and
    the predicted corner completes the parallelogram of the three: the
    sides facing each other are equal and the diagonals share their
    midpoint.  Clicking on the predicted corner stores that parallelogram. *)
Theorem preview_completes_parallelogram (st : editor) :
  (length (current_polygon st) = 3%nat <->
   exists p4, preview_point st = Some p4) /\
  (forall p4, preview_point st = Some p4 ->
     exists p1 p2 p3,
       current_polygon st = [p1; p2; p3] /\
       fst p4 - fst p1 = fst p3 - fst p2 /\
       snd p4 - snd p1 = snd p3 - snd p2 /\
       fst p4 - fst p3 = fst p1 - fst p2 /\
       snd p4 - snd p3 = snd p1 - snd p2 /\
       fst p1 + fst p3 = fst p2 + fst p4 /\
       snd p1 + snd p3 = snd p2 + snd p4 /\
       spots (add_point (fst p4) (snd p4) st) =
         (spots st ++ [new_spot (spot_name (spot_counter st))
                         [p1; p2; p3; p4]])%list).
Proof.
  unfold preview_point. split.
  - destruct (current_polygon st) as [|a [|b [|c [|d l]]]]; simpl;
      split; try discriminate; try (intros [p4 Hp]; discriminate); eauto.
  - intros p4 Hp.
    destruct (current_polygon st) as [|a [|b [|c [|d l]]]] eqn:Hcp;
      try discriminate.
    injection Hp as <-. exists a, b, c. simpl.
    repeat (split; [reflexivity || lia|]).
    rewrite add_point_completing by (rewrite Hcp; reflexivity).
    simpl. rewrite Hcp. reflexivity.
Qed.

Lemma preview_completes_parallelogram_witness :
  exists p1 p2 p3,
    current_polygon (add_points [(0, 0); (100, 0); (100, 50)] (fresh ∅)) =
      [p1; p2; p3] /\
    fst p1 + fst p3 = fst p2 + 0 /\ snd p1 + snd p3 = snd p2 + 50.
Proof.
  destruct (proj2 (preview_completes_parallelogram
                     (add_points [(0, 0); (100, 0); (100, 50)] (fresh ∅)))
              (0, 50) eq_refl)
    as (p1 & p2 & p3 & Hcp & _ & _ & _ & _ & Hx & Hy & _).
  exists p1, p2, p3. auto.
Defined.

(** * Further properties of the older occupancy test *)

(** X13.  When shapely computes every intersection and no area is zero,
    the verdict of the loop of [spot_mapper.py] is that some detection
    passes the test of line 53: stopping at the first hit changes nothing. *)
Theorem mapper_verdict `{Shapely} (spot_poly : geom)
    (detections : list (Z * Z * Z * Z)) :
  ~ (area spot_poly == 0)%Q ->
  (forall x1 y1 x2 y2, In (x1, y1, x2, y2) detections ->
     (exists inter, intersection spot_poly (box x1 y1 x2 y2) = Some inter) /\
     ~ (area (box x1 y1 x2 y2) == 0)%Q) ->
  mapper_occupied spot_poly detections =
  Some (existsb (mapper_passes spot_poly) detections).
Proof.
  intros Hp. induction detections as [|[[[x1 y1] x2] y2] rest IH]; intros Hall.
  - reflexivity.
  - destruct (Hall x1 y1 x2 y2 (or_introl eq_refl)) as [[inter Hi] Hb].
    rewrite (mapper_occupied_step _ _ _ _ _ _ _ Hi Hp Hb).
    simpl existsb. unfold mapper_passes at 1. rewrite Hi.
    destruct (both_perspectives _ _ _ _); [reflexivity|].
    simpl. apply IH. intros a b c d Hin. apply Hall. now right.
Qed.

Lemma mapper_verdict_witness :
  @mapper_occupied Reference.shapely square_ring
    (mapper_detections [person_inside; car_far; car_inside]) = Some true.
Proof.
  rewrite (@mapper_verdict Reference.shapely).
  - reflexivity.
  - vm_compute. discriminate.
  - intros x1 y1 x2 y2 [[= <- <- <- <-]|[[= <- <- <- <-]|[]]].
    + split; [eexists; reflexivity|vm_compute; discriminate].
    + split; [eexists; reflexivity|vm_compute; discriminate].
Defined.

Section MapperAgainstQuickFix.
Context `{Shapely} `{Canvas}.

Lemma mapper_labels_are_vehicles (c : string) :
  in_classes c mapper_labels = true -> in_classes c vehicle_classes = true.
Proof.
  unfold in_classes, mapper_labels, vehicle_classes. simpl.
  destruct (String.eqb c "car"); [reflexivity|].
  destruct (String.eqb c "truck"); [reflexivity|].
  destruct (String.eqb c "van"); [|discriminate].
  intros _. now rewrite !orb_true_r.
Qed.

Lemma enumerate_from_In (b : yolo_box) (boxes : list yolo_box) :
  forall k, In b boxes -> exists i, In (detection_of i b) (enumerate_from k boxes).
Proof.
  induction boxes as [|a rest IH]; intros k [].
  - subst a. exists k. now left.
  - destruct (IH (S k) H1) as [i Hi]. exists i. now right.
Qed.

(** What a positive verdict of the older test rests on. *)
Lemma mapper_occupied_true (spot_poly : geom)
    (detections : list (Z * Z * Z * Z)) :
  mapper_occupied spot_poly detections = Some true ->
  exists x1 y1 x2 y2 inter,
    In (x1, y1, x2, y2) detections /\
    intersection spot_poly (box x1 y1 x2 y2) = Some inter /\
    ~ (area spot_poly == 0)%Q /\
    ((15 # 100 < area inter / area spot_poly)%Q \/
     (~ (area (box x1 y1 x2 y2) == 0)%Q /\
      (15 # 100 < area inter / area (box x1 y1 x2 y2))%Q)).
Proof.
  induction detections as [|[[[x1 y1] x2] y2] rest IH]; simpl; [discriminate|].
  destruct (intersection spot_poly (box x1 y1 x2 y2)) as [inter|] eqn:Hi;
    [|discriminate].
  destruct (Qeq_bool (area spot_poly) 0) eqn:Hp; [discriminate|].
  apply Qeq_bool_false in Hp.
  cmp (area inter / area spot_poly)%Q (15 # 100)%Q.
  { intros _. exists x1, y1, x2, y2, inter. auto 6. }
  destruct (Qeq_bool (area (box x1 y1 x2 y2)) 0) eqn:Hb; [discriminate|].
  apply Qeq_bool_false in Hb.
  cmp (area inter / area (box x1 y1 x2 y2))%Q (15 # 100)%Q.
  { intros _. exists x1, y1, x2, y2, inter. auto 7. }
  intros Hrest. destruct (IH Hrest) as (a & b & c & d & i & Hin & Hrest').
  exists a, b, c, d, i. split; [now right|exact Hrest'].
Qed.

Lemma positive_numerator (t x a : Q) :
  (0 < t)%Q -> (0 < a)%Q -> (t < x / a)%Q -> (0 < x)%Q.
Proof.
  intros Ht Ha Hx.
  assert (Ha0 : ~ (a == 0)%Q).
  { intros E. rewrite E in Ha. exact (Qlt_irrefl _ Ha). }
  assert (Hq : (0 < x / a)%Q) by (eapply Qlt_trans; [exact Ht|exact Hx]).
  apply (Qmult_lt_r _ _ a Ha) in Hq.
  rewrite Qmult_0_l in Hq. unfold Qdiv in Hq.
  rewrite <- Qmult_assoc, (Qmult_comm (/ a)), (Qmult_inv_r _ Ha0),
    Qmult_1_r in Hq.
  exact Hq.
Qed.

End MapperAgainstQuickFix.

(** Integer coordinates that fit [int32] pass through the array
    unchanged. *)
Lemma int32_rows_kept (rows : list json) :
  forallb integer_point rows = true -> int32_rows 2 rows = Some rows.
Proof.
  induction rows as [|row rest IH]; intros Hrows; [reflexivity|].
  simpl in Hrows. apply andb_prop in Hrows as [Hrow Hrest].
  destruct row as [| | | | |[|[| | x| | | |] [|[| | y| | | |] [|]]]|];
    try discriminate.
  simpl in Hrow. apply andb_prop in Hrow as [Hx Hy].
  simpl. rewrite Hx, Hy, (IH Hrest). reflexivity.
Qed.

Lemma integer_polygon_kept (coords : json) :
  integer_polygon coords = true -> int32_array coords = Some coords.
Proof.
  destruct coords as [| | | | |points|]; try discriminate.
  unfold integer_polygon. intros Hpoints.
  destruct points as [|row rest]; [reflexivity|].
  pose proof (int32_rows_kept _ Hpoints) as Hrows.
  simpl in Hpoints. apply andb_prop in Hpoints as [Hrow _].
  destruct row as [| | | | |[|[| | x| | | |] [|[| | y| | | |] [|]]]|];
    try discriminate.
  unfold int32_array. change (length [JNum x; JNum y]) with 2%nat.
  now rewrite Hrows.
Qed.

(** On one and the same polygon the quick-fix pass is at least as eager as
    the older test. *)
Lemma eager_on_one_polygon `{Shapely} `{Canvas}
    (boxes : list yolo_box) (spot_id coords : json) (p : geom) (r : snapshot) :
  (forall g, (0 <= area g)%Q) ->
  (forall b, In b boxes -> (1 # 10 < conf b)%Q) ->
  Polygon coords = Some p ->
  mapper_occupied p (mapper_detections boxes) = Some true ->
  analyze_spot (1 # 100) (all_detections boxes) (vehicle_detections boxes)
    spot_id coords = Some r ->
  snap_status r = OCCUPIED /\ (15 # 100 < snap_overlap r)%Q.
Proof.
  intros Hnn Hconf Hp Hmap Hr.
  destruct (mapper_occupied_true _ _ Hmap)
    as (x1 & y1 & x2 & y2 & inter & Hin & Hi & Hp0 & Htest).
  (* the box is one of the vehicle detections of the quick-fix pass *)
  unfold mapper_detections in Hin. apply in_map_iff in Hin as (yb & Hxy & Hyb).
  apply filter_In in Hyb as [Hyb Hlabel].
  destruct (enumerate_from_In yb boxes 0 Hyb) as [i Hdet].
  set (det := detection_of i yb) in *.
  assert (Hveh : In det (vehicle_detections boxes)).
  { apply vehicle_detections_In. split; [exact Hdet|]. split.
    - apply mapper_labels_are_vehicles, Hlabel.
    - apply Hconf, Hyb. }
  assert (Hbox : det_box det = box x1 y1 x2 y2).
  { unfold det_box, det. simpl. now rewrite Hxy. }
  (* the pass that produced the snapshot evaluated it *)
  destruct (analyze_spot_inv _ _ _ _ _ _ Hr) as (p' & m & b & Hp' & Hm & _ & ->).
  rewrite Hp in Hp'. injection Hp' as <-. simpl.
  destruct (match_detections_spec _ _ _ _ Hm) as (prim & Hprim & Hcase).
  destruct (scan_spec p _ (0%Q, None) prim (Qle_refl 0) Hprim) as (_ & Hall & _).
  destruct (Hall det Hveh) as (q & Hq & Hle).
  (* its ratio exceeds 0.15 *)
  assert (Hq15 : (15 # 100 < q)%Q).
  { unfold evaluate, visit in Hq. rewrite Hbox, Hi in Hq.
    set (pa := area p) in *. set (ba := area (box x1 y1 x2 y2)) in *.
    assert (Hpa : (0 < pa)%Q).
    { destruct (Qle_lt_or_eq _ _ (Hnn p)) as [L|E]; [exact L|].
      exfalso. apply Hp0. now symmetry. }
    assert (Hpos : (0 < area inter)%Q).
    { destruct Htest as [Ht|[Hb0 Ht]].
      - eapply positive_numerator; [|exact Hpa|exact Ht]. reflexivity.
      - eapply positive_numerator; [| |exact Ht]; [reflexivity|].
        destruct (Qle_lt_or_eq _ _ (Hnn (box x1 y1 x2 y2))) as [L|E];
          [exact L|]. exfalso. apply Hb0. now symmetry. }
    apply Qgtb_true in Hpos. rewrite Hpos in Hq.
    destruct (Qeq_bool (Qmin pa ba) 0) eqn:Hmin; [discriminate|].
    apply Qeq_bool_false in Hmin.
    assert (Hba : (0 < ba)%Q).
    { destruct (Qle_lt_or_eq _ _ (Hnn (box x1 y1 x2 y2))) as [L|E];
        [exact L|]. exfalso. apply Hmin.
      apply Qle_antisym; [|apply Q.min_glb; [apply Qlt_le_weak, Hpa|apply Hnn]].
      fold ba in E. rewrite E. apply Q.le_min_r. }
    assert (Hsm : (0 < Qmin pa ba)%Q) by (apply Q.min_glb_lt; assumption).
    assert (Hratio : (15 # 100 < area inter / Qmin pa ba)%Q).
    { destruct Htest as [Ht|[_ Ht]].
      - eapply ratio_grows_as_area_shrinks; [reflexivity|exact Hsm| |exact Ht].
        apply Q.le_min_l.
      - eapply ratio_grows_as_area_shrinks; [reflexivity|exact Hsm| |exact Ht].
        apply Q.le_min_r. }
    simpl fst in Hq.
    assert (Hr0 : (0 < area inter / Qmin pa ba)%Q).
    { eapply Qlt_trans; [|exact Hratio]. reflexivity. }
    apply Qgtb_true in Hr0. rewrite Hr0 in Hq. simpl in Hq.
    replace q with (area inter / Qmin pa ba)%Q by congruence.
    exact Hratio. }
  assert (Hprim15 : (15 # 100 < fst prim)%Q) by (eapply Qlt_le_trans; eauto).
  destruct Hcase as [[_ E]|[E _]].
  - rewrite <- E in Hprim15. simpl in Hprim15. split; [|exact Hprim15].
    apply decide_status_occupied. eapply Qlt_trans; [|exact Hprim15].
    reflexivity.
  - rewrite E in Hprim15. simpl in Hprim15. discriminate.
Qed.

(** X14.  On a layout of integer coordinates, which the [int32] array of
    [spot_mapper.py] holds unchanged, the quick-fix pass is at least as
    eager as the older test: with non-negative areas and detector
    confidences above 0.1, a spot that [spot_mapper.py] calls occupied on
    some boxes is OCCUPIED in every snapshot [quick_fix_detection] produces
    for it on the same boxes. *)
Theorem mapper_occupied_is_quick_fix_occupied `{Shapely} `{Canvas}
    (boxes : list yolo_box) (spot_id coords : json) (r : snapshot) :
  (forall g, (0 <= area g)%Q) ->
  (forall b, In b boxes -> (1 # 10 < conf b)%Q) ->
  integer_polygon coords = true ->
  mapper_spot_occupied coords (mapper_detections boxes) = Some true ->
  analyze_spot (1 # 100) (all_detections boxes) (vehicle_detections boxes)
    spot_id coords = Some r ->
  snap_status r = OCCUPIED /\ (15 # 100 < snap_overlap r)%Q.
Proof.
  intros Hnn Hconf Hint Hmap Hr.
  unfold mapper_spot_occupied, mapper_polygon in Hmap.
  rewrite (integer_polygon_kept _ Hint) in Hmap.
  destruct (Polygon coords) as [p|] eqn:Hp; [|discriminate].
  exact (eager_on_one_polygon boxes spot_id coords p r Hnn Hconf Hp Hmap Hr).
Qed.

Lemma reference_area_nonneg (g : Reference.ring) :
  (0 <= @area Reference.shapely g)%Q.
Proof.
  simpl. unfold Reference.ref_area. destruct g as [|a l]; [apply Qle_refl|].
  rewrite Qred_correct. apply Qle_shift_div_l; [reflexivity|].
  rewrite Qmult_0_l. apply Qabs_nonneg.
Qed.

Lemma mapper_occupied_is_quick_fix_occupied_witness :
  snap_status
    {| snap_id := JStr "s1"; snap_status := OCCUPIED;
       snap_overlap := 400 # 400; snap_detection := Some "car" |} = OCCUPIED.
Proof.
  assert (Hconf : forall b, In b [car_inside] -> (1 # 10 < conf b)%Q).
  { intros b [<-|[]]. reflexivity. }
  assert (Hint : integer_polygon (JArr square_points) = true) by reflexivity.
  assert (Hmap : @mapper_spot_occupied Reference.shapely (JArr square_points)
                   (mapper_detections [car_inside]) = Some true)
    by (vm_compute; reflexivity).
  assert (Hr : @analyze_spot Reference.shapely Reference.canvas (1 # 100)
                 (all_detections [car_inside]) (vehicle_detections [car_inside])
                 (JStr "s1") (JArr square_points) =
               Some {| snap_id := JStr "s1"; snap_status := OCCUPIED;
                       snap_overlap := 400 # 400;
                       snap_detection := Some "car" |})
    by (vm_compute; reflexivity).
  exact (proj1 (@mapper_occupied_is_quick_fix_occupied
                  Reference.shapely Reference.canvas [car_inside]
                  (JStr "s1") (JArr square_points) _
                  reference_area_nonneg Hconf Hint Hmap Hr)).
Defined.

(** The integer coordinates matter: the array of line 43 drops the
    fractional part of a coordinate, so on a layout with fractions the two
    programs look at different polygons.  Here the older test sees the
    square and calls the spot occupied, while the quick-fix pass finds the
    ratio 1199/200000, below its threshold, and reports the spot FREE. *)
Lemma fractional_layout_disagrees :
  let coords :=
    JArr [pt 0 100; JArr [JFloat (999 # 1000); JNum 0]; pt 100 0; pt 100 100] in
  let boxes := [{| cls_name := "car"; conf := 9 # 10; xyxy := (0, 0, 1, 1) |}] in
  @mapper_spot_occupied Reference.shapely coords (mapper_detections boxes)
    = Some true /\
  @analyze_spot Reference.shapely Reference.canvas (1 # 100)
    (all_detections boxes) (vehicle_detections boxes) (JStr "s1") coords =
  Some {| snap_id := JStr "s1"; snap_status := FREE;
          snap_overlap := 1199 # 200000; snap_detection := Some "car" |}.
Proof. split; vm_compute; reflexivity. Qed.

(** * The editor, the API and the inference pass together *)

Lemma editor_made_has_keys (i : nat) (e : json) :
  editor_made i e -> has_keys e = true.
Proof. intros (points & -> & _). reflexivity. Qed.

(** X15.  A layout saved by a session that started with an empty registry
    is always readable by the inference pass: every entry has its id and
    its polygon, so [quick_fix_detection] on the files the session leaves
    does not raise, and returns at most one snapshot per saved spot. *)
Theorem saved_layout_is_readable `{Shapely} `{Canvas}
    (turns : list (list click * Z)) (st st' : editor)
    (boxes : list yolo_box) :
  spots st = [] ->
  spot_counter st = 1 ->
  session turns st = Some st' ->
  files st' <> files st ->
  exists results,
    quick_fix_detection (files st') boxes = Some results /\
    (length results <= length (spots st'))%nat.
Proof.
  intros Hempty Hc Hs Hchanged.
  assert (Hcf : counter_follows st).
  { unfold counter_follows. rewrite Hempty, Hc. reflexivity. }
  assert (Hinv : loaded_or_made (spots st) st').
  { eapply session_numbering; [exact Hcf| |exact Hs]. intros i e Hi. now left. }
  assert (Hkeys : forallb has_keys (spots st') = true).
  { apply forallb_forall. intros e Hin.
    apply In_nth_error in Hin as [i Hi].
    destruct (Hinv _ _ Hi) as [Hb|Hmade].
    - rewrite Hempty in Hb. destruct i; discriminate.
    - eapply editor_made_has_keys, Hmade. }
  destruct (proj1 (session_files turns st st' Hs)) as [Hsame|(_ & _ & Hw)];
    [contradiction|].
  unfold quick_fix_detection. rewrite Hw, lookup_insert_eq.
  rewrite (run_detection_omap _ _ _ Hkeys).
  eexists. split; [reflexivity|]. apply omap_length_le.
Qed.

Lemma saved_layout_is_readable_witness :
  exists results,
    @quick_fix_detection Reference.shapely Reference.canvas
      (<[layout_path := JArr [new_spot "spot_1"
                                [(0, 0); (100, 0); (100, 100); (0, 100)]]]>
         (<[output_json := JArr [new_spot "spot_1"
                                   [(0, 0); (100, 0); (100, 100); (0, 100)]]]> ∅))
      [car_inside] = Some results.
Proof.
  pose (turns := [([(EVENT_LBUTTONDOWN, 0, 0); (EVENT_LBUTTONDOWN, 100, 0);
                    (EVENT_LBUTTONDOWN, 100, 100); (EVENT_LBUTTONDOWN, 0, 100)],
                   ord "s")] : list (list click * Z)).
  pose (st' := {| spots := [new_spot "spot_1"
                              [(0, 0); (100, 0); (100, 100); (0, 100)]];
                  current_polygon := []; spot_counter := 2;
                  files := <[layout_path := JArr [new_spot "spot_1"
                               [(0, 0); (100, 0); (100, 100); (0, 100)]]]>
                             (<[output_json := JArr [new_spot "spot_1"
                               [(0, 0); (100, 0); (100, 100); (0, 100)]]]> ∅);
                  printed := [StartingFresh; PointClicked 1 0 0;
                              PointClicked 2 100 0; PointClicked 3 100 100;
                              PointClicked 4 0 100; Added "spot_1";
                              Saved 1 output_json; UpdatedLayout];
                  running := false |}).
  assert (Hs : @session Reference.canvas turns (fresh ∅) = Some st')
    by reflexivity.
  assert (Hch : files st' <> files (fresh ∅)).
  { simpl. intros E. apply (f_equal (fun m => m !! layout_path)) in E.
    rewrite lookup_insert_eq, lookup_empty in E. discriminate. }
  destruct (@saved_layout_is_readable Reference.shapely Reference.canvas
              turns (fresh ∅) st' [car_inside] eq_refl eq_refl Hs Hch)
    as (results & Hq & _).
  exists results. exact Hq.
Defined.

(** X16.  What the API writes, the API, the editor and the inference pass
    read back: after [calibrate_lot] the layout endpoint returns the posted
    spots and their number (other files are untouched), every written entry
    has its id and its polygon, so the inference pass does not raise on the
    layout, and an editor started on it holds the posted spots and numbers
    the next one after them.  An empty list is written like any other. *)
Theorem calibrate_then_read (fs : gmap string json) (path lot_id : string)
    (posted : list SpotPolygon) :
  let fs' := fst (calibrate_lot fs path posted) in
  get_lot_spots fs' path lot_id =
    Ok (lot_id, JArr (map spot_dict posted), length posted) /\
  (forall other, other <> path -> fs' !! other = fs !! other) /\
  (forall (G : Shapely) (C : Canvas) (threshold : Q) (boxes : list yolo_box),
      exists results,
        run_detection threshold (JArr (map spot_dict posted)) boxes
          = Some results /\
        (length results <= length posted)%nat) /\
  (path = layout_path ->
   spots (start fs') = map spot_dict posted /\
   spot_counter (start fs') = Z.of_nat (length posted) + 1).
Proof.
  simpl. split.
  { unfold get_lot_spots. rewrite lookup_insert_eq. simpl.
    now rewrite length_map. }
  split.
  { intros other Hne. apply lookup_insert_ne. congruence. }
  split.
  - intros G C threshold boxes.
    assert (Hkeys : forallb has_keys (map spot_dict posted) = true).
    { apply forallb_forall. intros e Hin.
      apply in_map_iff in Hin as (sp & <- & _). reflexivity. }
    rewrite (run_detection_omap _ _ _ Hkeys). eexists. split; [reflexivity|].
    etransitivity; [apply omap_length_le|]. now rewrite length_map.
  - intros ->. unfold start. rewrite lookup_insert_eq. simpl.
    now rewrite length_map.
Qed.

Lemma calibrate_then_read_witness :
  spots (start (fst (calibrate_lot ∅ layout_path []))) = [] /\
  fst (calibrate_lot ∅ layout_path []) !! output_json = None.
Proof.
  destruct (calibrate_then_read ∅ layout_path "main_lot" [])
    as (_ & Hother & _ & Hstart).
  split.
  - exact (proj1 (Hstart eq_refl)).
  - rewrite Hother by discriminate. apply lookup_empty.
Defined.

(** X17.  The layout endpoint answers with the layout exactly when the
    file holds a list, an object or a string, and then counts its length;
    in every other case, a missing file included, the client gets status
    500: the 404 raised for a missing layout is caught by the handler of the
    same function and never reaches the client. *)
Theorem layout_endpoint_answers (fs : gmap string json) (path lot_id : string) :
  (forall spots n, fs !! path = Some spots -> py_len spots = Some n ->
                   get_lot_spots fs path lot_id = Ok (lot_id, spots, n)) /\
  (fs !! path = None -> get_lot_spots fs path lot_id = HttpError 500) /\
  (forall spots, fs !! path = Some spots -> py_len spots = None ->
                 get_lot_spots fs path lot_id = HttpError 500) /\
  (forall code, get_lot_spots fs path lot_id = HttpError code -> code = 500).
Proof.
  unfold get_lot_spots. repeat split.
  - intros spots n -> ->. reflexivity.
  - intros ->. reflexivity.
  - intros spots -> ->. reflexivity.
  - intros code. destruct (fs !! path) as [spots|]; simpl.
    + destruct (py_len spots); simpl; [discriminate|]. now intros [= <-].
    + now intros [= <-].
Qed.

Lemma layout_endpoint_answers_witness :
  get_lot_spots ∅ layout_path "main_lot" = HttpError 500.
Proof.
  apply (proj1 (proj2 (layout_endpoint_answers ∅ layout_path "main_lot"))).
  apply lookup_empty.
Defined.

Lemma occupied_split (results : list frame_result) :
  (length (List.filter (fun r => negb (status_is_occupied r)) results)
   + length (List.filter status_is_occupied results) = length results)%nat.
Proof.
  induction results as [|r l IH]; [reflexivity|]. simpl.
  destruct (status_is_occupied r); simpl; lia.
Qed.

(** X18.  In a lot status the free and the occupied counts add up to the
    total, the occupied count is the number of results whose status is
    literally "OCCUPIED", and every other result, "UNKNOWN" included, is
    counted as free.  The only error status is 500. *)
Theorem lot_status_counts
    (process_frame : string -> json -> option (list frame_result))
    (fs : gmap string json) (path image_path lot_id now : string) :
  (forall body,
      get_lot_status process_frame fs path image_path lot_id now = Ok body ->
      (free_spots body + occupied_spots body = total_spots body)%nat /\
      total_spots body = length (ls_spots body) /\
      occupied_spots body =
        length (List.filter status_is_occupied (ls_spots body)) /\
      free_spots body =
        length (List.filter (fun r => negb (status_is_occupied r))
                  (ls_spots body))) /\
  (forall code,
      get_lot_status process_frame fs path image_path lot_id now
        = HttpError code -> code = 500).
Proof.
  unfold get_lot_status. split.
  - intros body. destruct (fs !! path) as [spots_data|]; [|discriminate].
    destruct (process_frame image_path spots_data) as [results|];
      [|discriminate].
    simpl. intros [= <-]. simpl.
    pose proof (occupied_split results). repeat split; lia.
  - intros code. destruct (fs !! path) as [spots_data|]; simpl.
    + destruct (process_frame image_path spots_data); simpl;
        [discriminate|]. now intros [= <-].
    + now intros [= <-].
Qed.

Lemma lot_status_counts_witness :
  exists body,
    get_lot_status
      (fun _ _ => Some [{| fr_id := "s1"; fr_status := "UNKNOWN";
                           fr_confidence := 0; fr_timestamp := "t";
                           fr_vehicle := None |}])
      {[layout_path := square_layout]} layout_path "img" "main_lot" "now"
      = Ok body /\
    free_spots body = 1%nat.
Proof.
  pose (unknown := {| fr_id := "s1"; fr_status := "UNKNOWN";
                      fr_confidence := 0; fr_timestamp := "t";
                      fr_vehicle := None |}).
  pose (body := {| ls_lot_id := "main_lot"; ls_timestamp := "now";
                   total_spots := 1; free_spots := 1; occupied_spots := 0;
                   ls_spots := [unknown] |}).
  assert (Hget : get_lot_status (fun _ _ => Some [unknown])
                   {[layout_path := square_layout]} layout_path "img"
                   "main_lot" "now" = Ok body).
  { unfold get_lot_status. rewrite lookup_singleton_eq. reflexivity. }
  exists body. split; [exact Hget|].
  destruct (proj1 (lot_status_counts (fun _ _ => Some [unknown])
                     {[layout_path := square_layout]} layout_path "img"
                     "main_lot" "now") body Hget) as (_ & _ & _ & Hfree).
  rewrite Hfree. reflexivity.
Defined.

(** * The connection manager *)

Lemma in_skipn {A} (n : nat) (l : list A) (x : A) :
  In x (skipn n l) -> In x l.
Proof.
  intros Hin. rewrite <- (firstn_skipn n l). apply in_or_app. now right.
Qed.

Lemma in_skipn_le {A} (n m : nat) (l : list A) (x : A) :
  (n <= m)%nat -> In x (skipn m l) -> In x (skipn n l).
Proof.
  intros Hle Hin. replace m with ((m - n) + n)%nat in Hin by lia.
  rewrite <- skipn_skipn in Hin. eapply in_skipn, Hin.
Qed.

Lemma skipn_nth {A} (l : list A) :
  forall i c, nth_error l i = Some c -> skipn i l = c :: skipn (S i) l.
Proof.
  induction l as [|a l IH]; intros [|i] c Hc; try discriminate.
  - injection Hc as ->. reflexivity.
  - simpl in Hc. apply (IH i c Hc).
Qed.

Lemma remove_one_In (c : connection) (l : list connection) (x : connection) :
  In x (remove_one c l) -> In x l.
Proof.
  induction l as [|a l IH]; simpl; [tauto|].
  destruct (Nat.eqb a c); simpl; tauto.
Qed.

Lemma remove_one_keeps (c : connection) (l : list connection) (x : connection) :
  In x l -> x <> c -> In x (remove_one c l).
Proof.
  intros Hin Hne. induction l as [|a l IH]; simpl in *; [tauto|].
  destruct (Nat.eqb_spec a c) as [->|Hac].
  - destruct Hin as [->|Hin]; [contradiction|exact Hin].
  - destruct Hin as [->|Hin]; [now left|right; auto].
Qed.

Lemma remove_one_length (c : connection) (l : list connection) :
  (length (remove_one c l) <= length l)%nat.
Proof.
  induction l as [|a l IH]; simpl; [lia|].
  destruct (Nat.eqb a c); simpl; lia.
Qed.

Lemma remove_one_skipn (c : connection) (l : list connection) :
  forall i x, In x (skipn (S i) (remove_one c l)) -> In x (skipn i l).
Proof.
  induction l as [|a l IH]; intros i x; simpl remove_one.
  - rewrite skipn_nil. intros [].
  - destruct (Nat.eqb a c).
    + intros Hin. destruct i as [|j].
      * right. eapply in_skipn, Hin.
      * simpl. apply (in_skipn_le j (S (S j))); [lia|exact Hin].
    + simpl. destruct i as [|j].
      * simpl. intros Hin. right. eapply remove_one_In, Hin.
      * apply IH.
Qed.

Lemma remove_one_app (b : connection) (pre rest : list connection) :
  ~ In b pre -> remove_one b (pre ++ b :: rest) = (pre ++ rest)%list.
Proof.
  induction pre as [|a pre IH]; intros Hn; simpl.
  - now rewrite Nat.eqb_refl.
  - destruct (Nat.eqb_spec a b) as [->|_]; [exfalso; apply Hn; now left|].
    f_equal. apply IH. intros Hin. apply Hn. now right.
Qed.

Lemma broadcast_loop_step (sends : connection -> bool) (fuel i : nat)
    (active delivered : list connection) :
  broadcast_loop sends (S fuel) i active delivered =
  match nth_error active i with
  | None => (active, delivered)
  | Some c =>
      if sends c
      then broadcast_loop sends fuel (S i) active (delivered ++ [c])%list
      else broadcast_loop sends fuel (S i) (remove_one c active) delivered
  end.
Proof. reflexivity. Qed.

(** The fuel [broadcast] gives is enough: more turns change nothing. *)
Lemma broadcast_loop_fuel (sends : connection -> bool) (fuel : nat) :
  forall i active delivered k,
    (length active <= i + fuel)%nat ->
    broadcast_loop sends (fuel + k) i active delivered =
    broadcast_loop sends fuel i active delivered.
Proof.
  induction fuel as [|fuel IH]; intros i active delivered k Hlen.
  - simpl. destruct k; [reflexivity|]. simpl.
    replace (nth_error active i) with (@None connection); [reflexivity|].
    symmetry. apply nth_error_None. lia.
  - simpl. destruct (nth_error active i) as [c|]; [|reflexivity].
    destruct (sends c).
    + apply IH. lia.
    + apply IH. pose proof (remove_one_length c active). lia.
Qed.

Lemma broadcast_loop_sound (sends : connection -> bool) (fuel : nat) :
  forall i active delivered active' delivered',
    broadcast_loop sends fuel i active delivered = (active', delivered') ->
    (forall x, In x active' -> In x active) /\
    (forall x, In x active -> sends x = true -> In x active') /\
    (forall x, In x delivered' ->
       In x delivered \/ (In x (skipn i active) /\ sends x = true)).
Proof.
  induction fuel as [|fuel IH]; intros i active delivered a' d'; simpl.
  - intros [= <- <-]. auto.
  - destruct (nth_error active i) as [c|] eqn:Hc; [|intros [= <- <-]; auto].
    destruct (sends c) eqn:Hs; intros Hloop.
    + destruct (IH _ _ _ _ _ Hloop) as (H1 & H2 & H3).
      split; [exact H1|]. split; [exact H2|].
      intros x Hx. destruct (H3 x Hx) as [Hd|[Hsk Hsx]].
      * apply in_app_or in Hd as [Hd|[<-|[]]]; [now left|].
        right. split; [|exact Hs]. rewrite (skipn_nth _ _ _ Hc). now left.
      * right. split; [|exact Hsx]. apply (in_skipn_le i (S i)); [lia|exact Hsk].
    + destruct (IH _ _ _ _ _ Hloop) as (H1 & H2 & H3).
      split; [intros x Hx; eapply remove_one_In, H1, Hx|].
      split.
      * intros x Hx Hsx. apply H2; [|exact Hsx].
        apply remove_one_keeps; [exact Hx|]. intros ->. congruence.
      * intros x Hx. destruct (H3 x Hx) as [Hd|[Hsk Hsx]]; [now left|].
        right. split; [|exact Hsx]. eapply remove_one_skipn, Hsk.
Qed.

Lemma broadcast_loop_healthy (sends : connection -> bool) (fuel : nat) :
  forall i active delivered,
    (forall x, In x active -> sends x = true) ->
    (length active <= i + fuel)%nat ->
    broadcast_loop sends fuel i active delivered =
    (active, (delivered ++ skipn i active)%list).
Proof.
  induction fuel as [|fuel IH]; intros i active delivered Hall Hlen; simpl.
  - rewrite skipn_all2 by lia. now rewrite app_nil_r.
  - destruct (nth_error active i) as [c|] eqn:Hc.
    + rewrite (Hall c (nth_error_In _ _ Hc)).
      rewrite IH by (auto; lia).
      rewrite (skipn_nth _ _ _ Hc), <- app_assoc. reflexivity.
    + apply nth_error_None in Hc. rewrite skipn_all2 by lia.
      now rewrite app_nil_r.
Qed.

Lemma broadcast_loop_prefix (sends : connection -> bool) (pre : list connection) :
  forall fuel done rest delivered,
    (forall x, In x pre -> sends x = true) ->
    broadcast_loop sends (length pre + fuel) (length done)
      (done ++ pre ++ rest) delivered =
    broadcast_loop sends fuel (length done + length pre)
      (done ++ pre ++ rest) (delivered ++ pre).
Proof.
  induction pre as [|x pre IH]; intros fuel done rest delivered Hall; simpl.
  - now rewrite Nat.add_0_r, app_nil_r.
  - rewrite nth_error_app2 by lia. rewrite Nat.sub_diag. simpl.
    rewrite (Hall x (or_introl eq_refl)).
    replace (done ++ x :: pre ++ rest)%list
      with ((done ++ [x]) ++ pre ++ rest)%list
      by (rewrite <- app_assoc; reflexivity).
    replace (S (length done)) with (length (done ++ [x]))
      by (rewrite length_app; simpl; lia).
    rewrite IH by (intros y Hy; apply Hall; now right).
    rewrite length_app. simpl. rewrite <- !app_assoc. simpl.
    f_equal. lia.
Qed.

Lemma broadcast_loop_sound_all (sends : connection -> bool)
    (active : list connection) :
  (forall x, In x (fst (broadcast sends active)) -> In x active) /\
  (forall x, In x active -> sends x = true ->
             In x (fst (broadcast sends active))) /\
  (forall x, In x (snd (broadcast sends active)) ->
             In x active /\ sends x = true).
Proof.
  unfold broadcast.
  destruct (broadcast_loop sends (length active) 0 active []) as [a' d'] eqn:Hb.
  destruct (broadcast_loop_sound _ _ _ _ _ _ _ Hb) as (H1 & H2 & H3).
  simpl. split; [exact H1|]. split; [exact H2|].
  intros x Hx. destruct (H3 x Hx) as [[]|[Hsk Hs]]. split; [|exact Hs].
  eapply in_skipn, Hsk.
Qed.

(** X19.  A broadcast never drops a connection that accepts the message
    and never invents one; whoever is counted as served is a connection of
    the list that accepted the message; and when every connection accepts,
    all of them are served, in order, and the list is unchanged. *)
Theorem broadcast_is_sound (sends : connection -> bool)
    (active : list connection) :
  (forall x, In x (fst (broadcast sends active)) -> In x active) /\
  (forall x, In x active -> sends x = true ->
             In x (fst (broadcast sends active))) /\
  (forall x, In x (snd (broadcast sends active)) ->
             In x active /\ sends x = true) /\
  ((forall x, In x active -> sends x = true) ->
   broadcast sends active = (active, active)).
Proof.
  destruct (broadcast_loop_sound_all sends active) as (H1 & H2 & H3).
  split; [exact H1|]. split; [exact H2|]. split; [exact H3|].
  intros Hall. unfold broadcast.
  rewrite broadcast_loop_healthy by (auto; lia). reflexivity.
Qed.

Lemma broadcast_is_sound_witness :
  broadcast (fun _ => true) [3; 1; 2]%nat = ([3; 1; 2], [3; 1; 2])%nat.
Proof.
  apply (proj2 (proj2 (proj2 (broadcast_is_sound (fun _ => true) [3; 1; 2]%nat)))).
  reflexivity.
Defined.

(** X20.  Removing a broken connection while the list is being read makes
    the loop step over its successor: if the first connection that refuses
    the message is directly followed by another one, that one is not served
    during this broadcast, although it stays connected when it would have
    accepted. *)
Theorem broadcast_skips_after_broken (sends : connection -> bool)
    (pre post : list connection) (broken next : connection) :
  List.NoDup (pre ++ broken :: next :: post) ->
  (forall x, In x pre -> sends x = true) ->
  sends broken = false ->
  ~ In next (snd (broadcast sends (pre ++ broken :: next :: post))) /\
  ~ In broken (fst (broadcast sends (pre ++ broken :: next :: post))) /\
  (sends next = true ->
   In next (fst (broadcast sends (pre ++ broken :: next :: post)))).
Proof.
  intros Hnd Hpre Hbroken.
  assert (Hb_pre : ~ In broken pre).
  { apply NoDup_remove_2 in Hnd. intros Hin. apply Hnd.
    apply in_or_app. now left. }
  assert (Hnext : ~ In next (pre ++ post)).
  { apply NoDup_remove_1 in Hnd. apply NoDup_remove_2 in Hnd. exact Hnd. }
  assert (Hb_post : ~ In broken (pre ++ next :: post)).
  { apply NoDup_remove_2 in Hnd. exact Hnd. }
  unfold broadcast.
  replace (length (pre ++ broken :: next :: post))
    with (length pre + S (S (length post)))%nat
    by (rewrite length_app; simpl; lia).
  pose proof (broadcast_loop_prefix sends pre (S (S (length post))) []
                (broken :: next :: post) [] Hpre) as Hpfx.
  simpl app in Hpfx. simpl length in Hpfx. rewrite Hpfx. clear Hpfx.
  change (0 + length pre)%nat with (length pre).
  rewrite broadcast_loop_step.
  rewrite nth_error_app2 by lia. rewrite Nat.sub_diag. simpl nth_error.
  cbv iota. rewrite Hbroken, (remove_one_app _ _ _ Hb_pre).
  destruct (broadcast_loop sends (S (length post)) (S (length pre))
              (pre ++ next :: post) pre) as [a' d'] eqn:Hloop.
  destruct (broadcast_loop_sound _ _ _ _ _ _ _ Hloop) as (H1 & H2 & H3).
  simpl. split; [|split].
  - intros Hin. apply Hnext. apply in_or_app.
    destruct (H3 _ Hin) as [Hp|[Hsk _]]; [now left|right].
    replace (S (length pre)) with (length pre + 1)%nat in Hsk by lia.
    rewrite skipn_app, skipn_all2 in Hsk by lia.
    replace (length pre + 1 - length pre)%nat with 1%nat in Hsk by lia.
    exact Hsk.
  - intros Hin. apply Hb_post, H1, Hin.
  - intros Hs. apply H2; [|exact Hs]. apply in_or_app. right. now left.
Qed.

Lemma broadcast_skips_after_broken_witness :
  ~ In 2%nat (snd (broadcast (fun c => negb (Nat.eqb c 1)) [1; 2; 3]%nat)).
Proof.
  apply (broadcast_skips_after_broken (fun c => negb (Nat.eqb c 1))
           [] [3%nat] 1%nat 2%nat).
  - repeat constructor; simpl; intuition discriminate.
  - intros x [].
  - reflexivity.
Defined.

Lemma in_recognized (status : string) :
  in_classes status recognized_statuses = true <->
  status = "FREE" \/ status = "OCCUPIED" \/ status = "UNKNOWN".
Proof.
  unfold in_classes, recognized_statuses. simpl.
  rewrite !orb_true_iff, !String.eqb_eq. intuition discriminate.
Qed.

(** X21.  A manual override is accepted exactly for the statuses FREE,
    OCCUPIED and UNKNOWN, spelled so.  Any other status is answered with 400
    before anything is sent, and the connections are left alone; an accepted
    one is answered with the status it asked for, and every message that
    goes out carries that status and spot and goes to a connection of the
    list that accepted it. *)
Theorem override_is_validated (sends : connection -> bool)
    (now_message now_reply lot_id spot_id status : string)
    (active : list connection) :
  let result := manual_override sends now_message now_reply lot_id spot_id
                  status active in
  ((status = "FREE" \/ status = "OCCUPIED" \/ status = "UNKNOWN") <->
   fst (fst result) =
     Ok ("Override applied to " ++ spot_id, status, now_reply)) /\
  (~ (status = "FREE" \/ status = "OCCUPIED" \/ status = "UNKNOWN") <->
   result = (HttpError 400, active, [])) /\
  (forall c m, In (c, m) (snd result) ->
               om_status m = status /\ om_spot_id m = spot_id /\
               om_lot_id m = lot_id /\ In c active /\ sends c = true).
Proof.
  unfold manual_override.
  destruct (in_classes status recognized_statuses) eqn:Hrec; simpl.
  - apply in_recognized in Hrec. split; [tauto|]. split.
    + split; [tauto|discriminate].
    + intros c m Hin. apply in_map_iff in Hin as (c' & [= <- <-] & Hc).
      simpl.
      destruct (proj2 (proj2 (broadcast_loop_sound_all sends active)) c' Hc)
        as [Hin Hs].
      auto.
  - assert (Hnot : ~ (status = "FREE" \/ status = "OCCUPIED" \/ status = "UNKNOWN")).
    { intros H. apply in_recognized in H. congruence. }
    split; [split; [tauto|discriminate]|]. split; [tauto|].
    intros c m [].
Qed.

Lemma override_is_validated_witness :
  manual_override (fun _ => true) "t1" "t2" "main_lot" "spot_1" "free" [1; 2]%nat
  = (HttpError 400, [1; 2]%nat, []).
Proof.
  apply (proj1 (proj2 (override_is_validated (fun _ => true) "t1" "t2"
                         "main_lot" "spot_1" "free" [1; 2]%nat))).
  intros [H|[H|H]]; discriminate.
Defined.

(** * The setup script *)

Lemma install_packages_spec (pip : string -> bool) (packages : list string) :
  forall called result,
    install_packages pip packages = (called, result) ->
    result = forallb pip packages /\
    (exists rest, packages = (called ++ rest)%list /\
                  (result = true -> rest = [])) /\
    (result = false ->
     exists passed failed,
       called = (passed ++ [failed])%list /\ pip failed = false /\
       forall p, In p passed -> pip p = true).
Proof.
  induction packages as [|package rest IH]; intros called result; simpl.
  - intros [= <- <-]. split; [reflexivity|].
    split; [exists []; auto|discriminate].
  - destruct (pip package) eqn:Hp.
    + destruct (install_packages pip rest) as [called' result'] eqn:Hrest.
      intros [= <- <-].
      destruct (IH _ _ eq_refl) as (Hres & (tail & Htail & Hnil) & Hfail).
      split; [exact Hres|]. split.
      * exists tail. split; [simpl; now rewrite Htail at 1|exact Hnil].
      * intros Hf. destruct (Hfail Hf) as (passed & failed & -> & Hpf & Hall).
        exists (package :: passed), failed. split; [reflexivity|].
        split; [exact Hpf|]. intros q [<-|Hq]; auto.
    + intros [= <- <-]. split; [reflexivity|]. split.
      * exists rest. split; [reflexivity|discriminate].
      * intros _. exists [], package. split; [reflexivity|].
        split; [exact Hp|]. intros q [].
Qed.

(** X22.  The installation stops at the first package pip fails on: the
    packages pip is called on are an initial part of the requirements, in
    order; the result is True exactly when pip succeeds on every
    requirement, and then all were installed; otherwise the last package
    tried is the one that failed and every package before it succeeded. *)
Theorem install_stops_at_first_failure (pip : string -> bool)
    (called : list string) (result : bool) :
  install_requirements pip = (called, result) ->
  result = forallb pip requirements /\
  (exists rest, requirements = (called ++ rest)%list /\
                (result = true -> rest = [])) /\
  (result = false ->
   exists passed failed,
     called = (passed ++ [failed])%list /\ pip failed = false /\
     forall p, In p passed -> pip p = true).
Proof. apply install_packages_spec. Qed.

Lemma install_stops_at_first_failure_witness :
  exists rest,
    requirements = (["ultralytics"; "opencv-python"; "shapely"] ++ rest)%list.
Proof.
  destruct (install_stops_at_first_failure
              (fun p => negb (String.eqb p "shapely"))
              ["ultralytics"; "opencv-python"; "shapely"] false eq_refl)
    as (_ & (rest & Hrest & _) & _).
  exists rest. exact Hrest.
Defined.

(** X23.  The setup succeeds exactly when pip installs every requirement
    and the model is present or its download succeeds.  The directories are
    made in every case; the configuration and the web page are written only
    on success; no download is attempted after a failed installation or when
    the model is there; and the configuration that is written names the
    layout file the editor saves and the inference pass reads. *)
Theorem setup_succeeds_iff (pip : string -> bool)
    (model_present download_succeeds : bool) :
  let run := setup_project pip model_present download_succeeds in
  (setup_result run = true <->
   forallb pip requirements = true /\
   (model_present = true \/ download_succeeds = true)) /\
  made_directories run = directories /\
  (config_written run = Some sample_config <-> setup_result run = true) /\
  (config_written run = None <-> setup_result run = false) /\
  html_written run = setup_result run /\
  (download_attempted run = true ->
   forallb pip requirements = true /\ model_present = false) /\
  (forall config, config_written run = Some config ->
                  subscript config "spot_layout_path" = Some (JStr layout_path)).
Proof.
  unfold setup_project.
  destruct (install_requirements pip) as [called installed] eqn:Hi.
  destruct (install_packages_spec _ _ _ _ Hi) as (Hres & _ & _).
  rewrite <- Hres.
  destruct installed; [destruct model_present; [|destruct download_succeeds]|];
    simpl; repeat split;
    try (intros; repeat split; (reflexivity || congruence));
    try (intros config [= <-]; reflexivity);
    try (intros [_ [E|E]]; congruence);
    try (intros [E _]; congruence);
    try (intros; left; reflexivity);
    try (intros; right; reflexivity).
Qed.

Lemma setup_succeeds_iff_witness :
  setup_result (setup_project (fun _ => true) true false) = true.
Proof.
  apply (proj1 (setup_succeeds_iff (fun _ => true) true false)).
  split; [reflexivity|now left].
Defined.

(** * The image endpoint *)

Lemma ascii_compare_refl (c : ascii) : Ascii.compare c c = Eq.
Proof. unfold Ascii.compare. apply N.compare_refl. Qed.

Lemma ascii_compare_lt_trans (a b c : ascii) :
  Ascii.compare a b = Lt -> Ascii.compare b c = Lt -> Ascii.compare a c = Lt.
Proof.
  unfold Ascii.compare. rewrite !N.compare_lt_iff. apply N.lt_trans.
Qed.

Lemma string_leb_refl (s : string) : String.leb s s = true.
Proof.
  unfold String.leb. induction s as [|c s IH]; simpl; [reflexivity|].
  now rewrite ascii_compare_refl.
Qed.

Lemma string_leb_trans (s1 : string) :
  forall s2 s3, String.leb s1 s2 = true -> String.leb s2 s3 = true ->
                String.leb s1 s3 = true.
Proof.
  unfold String.leb.
  induction s1 as [|c1 s1 IH]; intros [|c2 s2] [|c3 s3]; simpl;
    try reflexivity; try discriminate.
  destruct (Ascii.compare c1 c2) eqn:E12; try discriminate;
    destruct (Ascii.compare c2 c3) eqn:E23; try discriminate.
  - apply Ascii.compare_eq_iff in E12, E23. subst.
    rewrite ascii_compare_refl. apply IH.
  - apply Ascii.compare_eq_iff in E12. subst. now rewrite E23.
  - apply Ascii.compare_eq_iff in E23. subst. now rewrite E12.
  - now rewrite (ascii_compare_lt_trans _ _ _ E12 E23).
Qed.

Lemma string_ltb_leb (s t : string) : String.ltb s t = true -> String.leb s t = true.
Proof. unfold String.ltb, String.leb. now destruct (String.compare s t). Qed.

Lemma string_not_ltb_leb (s t : string) :
  String.ltb s t = false -> String.leb t s = true.
Proof.
  unfold String.ltb, String.leb. rewrite (String.compare_antisym s t).
  now destruct (String.compare t s).
Qed.

Lemma max_string_spec (rest : list string) :
  forall first,
    In (max_string first rest) (first :: rest) /\
    String.leb first (max_string first rest) = true /\
    forall s, In s rest -> String.leb s (max_string first rest) = true.
Proof.
  induction rest as [|s rest IH]; intros first; simpl.
  - split; [now left|]. split; [apply string_leb_refl|intros s []].
  - destruct (String.ltb first s) eqn:Hlt.
    + destruct (IH s) as (Hin & Hge & Hall). split; [now right|]. split.
      * eapply string_leb_trans; [apply string_ltb_leb, Hlt|exact Hge].
      * intros t [<-|Ht]; auto.
    + destruct (IH first) as (Hin & Hge & Hall). split.
      * destruct Hin as [<-|Hin]; [now left|right; now right].
      * split; [exact Hge|]. intros t [<-|Ht]; [|auto].
        eapply string_leb_trans; [apply string_not_ltb_leb, Hlt|exact Hge].
Qed.

(** X24.  Asked for the annotated image, the endpoint serves the file of
    the output directory whose name is the greatest among the names that
    start with [annotated_] and end with [.jpg]; with no such file, with no
    output directory, or when the raw image is asked for, it serves the raw
    image if it exists and otherwise answers 500 (the 404 it raises is
    caught by its own handler). *)
Theorem latest_annotated_image_is_served (names : list string)
    (output_dir image_path : string) (image_exists : bool) :
  (forall first rest,
      List.filter is_annotated names = first :: rest ->
      exists latest,
        get_lot_image (Some names) output_dir image_path image_exists true
          = Ok (path_join output_dir latest) /\
        In latest names /\ is_annotated latest = true /\
        forall n, In n names -> is_annotated n = true ->
                  String.leb n latest = true) /\
  (List.filter is_annotated names = [] ->
   get_lot_image (Some names) output_dir image_path image_exists true
     = if image_exists then Ok image_path else HttpError 500) /\
  (get_lot_image None output_dir image_path image_exists true
     = if image_exists then Ok image_path else HttpError 500) /\
  (forall listing,
      get_lot_image listing output_dir image_path image_exists false
        = if image_exists then Ok image_path else HttpError 500).
Proof.
  unfold get_lot_image. repeat split.
  - intros first rest Hf. rewrite Hf. simpl.
    destruct (max_string_spec rest first) as (Hin & Hge & Hall).
    exists (max_string first rest). split; [reflexivity|].
    assert (Hmem : In (max_string first rest) (List.filter is_annotated names))
      by (rewrite Hf; exact Hin).
    apply filter_In in Hmem as [Hn Ha]. split; [exact Hn|]. split; [exact Ha|].
    intros n Hnin Hna.
    assert (Hnf : In n (first :: rest)).
    { rewrite <- Hf. apply filter_In. now split. }
    destruct Hnf as [<-|Hr]; auto.
  - intros ->. now destruct image_exists.
  - now destruct image_exists.
  - intros listing. now destruct image_exists.
Qed.

Lemma latest_annotated_image_is_served_witness :
  exists latest,
    get_lot_image
      (Some ["annotated_0002.jpg"; "notes.txt"; "annotated_0010.jpg";
             "annotated_0001.jpg"])
      "output/" "data/test_image.jpg" true true
      = Ok (path_join "output/" latest) /\
    String.leb "annotated_0002.jpg" latest = true.
Proof.
  destruct (proj1 (latest_annotated_image_is_served
                     ["annotated_0002.jpg"; "notes.txt"; "annotated_0010.jpg";
                      "annotated_0001.jpg"]
                     "output/" "data/test_image.jpg" true)
              "annotated_0002.jpg" ["annotated_0010.jpg"; "annotated_0001.jpg"]
              eq_refl)
    as (latest & Hget & _ & _ & Hmax).
  exists latest. split; [exact Hget|].
  apply Hmax; [now left|reflexivity].
Defined.
